(** * The [gen] command of GN (src/gn/command_gen.cc)

    A shallow embedding of the driver of [gn gen]: the aggregator of
    per-target ninja rules and its finalization sort, the validator of
    generated inputs with its diagnostics, the selection of the IDE writer,
    the jumbo statistics and the exit codes of [RunGen].

    Pointers to objects owned by the Builder are modelled by the object
    itself together with its address; collaborators whose code lives in
    other files ([Setup], [NinjaWriter], the IDE writers, [base::CommandLine])
    are parameters of the model, and every call made to them is recorded in
    a trace of events next to what is written to standard output. *)

From Stdlib Require Import ZArith String Ascii List Lia.
From stdpp Require Import base option list sorting gmap strings pretty.

Local Open Scope string_scope.
Local Open Scope list_scope.

(** ** Byte-wise order on [std::string] *)

(** [std::string::operator<] compares the bytes as unsigned values, from the
    left, a proper prefix being smaller: this is [String.compare]. *)
Module StringOrder.

Lemma ascii_compare_refl (a : ascii) : Ascii.compare a a = Eq.
Proof. unfold Ascii.compare. apply N.compare_refl. Qed.

Lemma ascii_compare_eq (a b : ascii) : Ascii.compare a b = Eq → a = b.
Proof.
  unfold Ascii.compare. intros H%N.compare_eq_iff.
  rewrite <- (ascii_N_embedding a), <- (ascii_N_embedding b). by f_equal.
Qed.

Lemma ascii_compare_lt_trans (a b c : ascii) :
  Ascii.compare a b = Lt → Ascii.compare b c = Lt → Ascii.compare a c = Lt.
Proof.
  unfold Ascii.compare. rewrite !N.compare_lt_iff. lia.
Qed.

Lemma compare_refl (s : string) : String.compare s s = Eq.
Proof. induction s as [|a s IH]; simpl; [done|]. by rewrite ascii_compare_refl. Qed.

Lemma compare_eq (s1 s2 : string) : String.compare s1 s2 = Eq ↔ s1 = s2.
Proof.
  split; [apply String.compare_eq_iff|]. intros ->. apply compare_refl.
Qed.

Lemma compare_lt_trans (s1 s2 s3 : string) :
  String.compare s1 s2 = Lt → String.compare s2 s3 = Lt →
  String.compare s1 s3 = Lt.
Proof.
  revert s2 s3. induction s1 as [|a s1 IH]; intros [|b s2] [|c s3]; simpl;
    try done.
  destruct (Ascii.compare a b) eqn:Hab; try done;
    destruct (Ascii.compare b c) eqn:Hbc; try done; intros H12 H23.
  - apply ascii_compare_eq in Hab, Hbc. subst.
    rewrite ascii_compare_refl. eauto.
  - apply ascii_compare_eq in Hab. subst. by rewrite Hbc.
  - apply ascii_compare_eq in Hbc. subst. by rewrite Hab.
  - by rewrite (ascii_compare_lt_trans a b c).
Qed.

Lemma compare_gt_lt (s1 s2 : string) :
  String.compare s1 s2 = Gt ↔ String.compare s2 s1 = Lt.
Proof.
  rewrite (String.compare_antisym s2 s1).
  destruct (String.compare s1 s2); simpl; split; congruence.
Qed.

End StringOrder.

(** ** Lexicographic combination of three-way comparisons *)

Definition lex (c1 c2 : comparison) : comparison :=
  match c1 with
  | Eq => c2
  | Lt => Lt
  | Gt => Gt
  end.

(** A three-way comparison that decides a strict total order. *)
Record TotalCompare {A : Type} (cmp : A → A → comparison) : Prop := {
  tc_eq : ∀ x y, cmp x y = Eq ↔ x = y;
  tc_gt : ∀ x y, cmp x y = Gt ↔ cmp y x = Lt;
  tc_trans : ∀ x y z, cmp x y = Lt → cmp y z = Lt → cmp x z = Lt
}.

Lemma String_TotalCompare : TotalCompare String.compare.
Proof.
  split.
  - apply StringOrder.compare_eq.
  - apply StringOrder.compare_gt_lt.
  - apply StringOrder.compare_lt_trans.
Qed.

Lemma TotalCompare_refl {A} (cmp : A → A → comparison)
    (H : TotalCompare cmp) (x : A) :
  cmp x x = Eq.
Proof. by apply (tc_eq _ H). Qed.

Lemma TotalCompare_asym {A} (cmp : A → A → comparison)
    (H : TotalCompare cmp) (x y : A) :
  cmp x y = Lt → cmp y x = Lt → False.
Proof.
  intros Hxy Hyx. pose proof (tc_trans _ H _ _ _ Hxy Hyx) as Hxx.
  by rewrite (TotalCompare_refl cmp H) in Hxx.
Qed.

(** ** Data model *)

(** Modelled from the spec: [Label] (gn/label.h is not part of this file).
    A label is a directory, a name and a toolchain label, the latter being
    the directory and the name of the toolchain; labels are totally ordered,
    lexicographically over these components. *)
Record Label := mkLabel {
  label_dir : string;
  label_name : string;
  label_toolchain_dir : string;
  label_toolchain_name : string
}.

Global Instance Label_eq_dec : EqDecision Label.
Proof. solve_decision. Defined.

Definition Label_compare (a b : Label) : comparison :=
  lex (String.compare (label_dir a) (label_dir b))
   (lex (String.compare (label_name a) (label_name b))
    (lex (String.compare (label_toolchain_dir a) (label_toolchain_dir b))
         (String.compare (label_toolchain_name a) (label_toolchain_name b)))).

(** [Label::operator<]. *)
Definition Label_lt (a b : Label) : bool :=
  match Label_compare a b with
  | Lt => true
  | _ => false
  end.

(** [Label::operator!=]. *)
Definition Label_ne (a b : Label) : bool := bool_decide (a ≠ b).

(** Modelled from the spec: [SourceFile] and [OutputFile]
    (gn/source_file.h and gn/output_file.h are not part of this file) are
    normalized path strings whose equality is byte-exact.
    [SourceFile::operator<], which orders the keys of the multimap of the
    unknown generated inputs, is taken to be the order of the strings. *)
Definition SourceFile := string.
Definition OutputFile := string.

Definition SourceFile_lt (a b : SourceFile) : bool := String.ltb a b.

(** [BuildSettings]: what the [OutputFile] constructor reads from it. *)
Record BuildSettings := mkBuildSettings {
  build_dir : string;
  root_path_utf8 : string
}.

Record Settings := mkSettings {
  build_settings : BuildSettings;
  toolchain_label : Label;
  default_toolchain_label : Label
}.

(** A [const Toolchain*] is only ever used as a key: its address. *)
Abbreviation ToolchainPtr := positive.

(** A [const Target*]: the address [target_addr] of the object, which is
    what [std::set<const Target*>] compares, and the fields of the object
    this file reads through the pointer. *)
Record Target := mkTarget {
  target_addr : positive;
  label : Label;
  settings : Settings;
  toolchain : ToolchainPtr;
  computed_outputs : list OutputFile;
  sources : list SourceFile;
  is_jumbo_configured : bool;
  is_jumbo_allowed : bool;
  IsBinary : bool
}.

Global Instance BuildSettings_eq_dec : EqDecision BuildSettings.
Proof. solve_decision. Defined.
Global Instance Settings_eq_dec : EqDecision Settings.
Proof. solve_decision. Defined.
Global Instance Target_eq_dec : EqDecision Target.
Proof. solve_decision. Defined.

(** *** The order on labels is a strict total order *)

Definition pair_compare {A B} (cA : A → A → comparison)
    (cB : B → B → comparison) (x y : A * B) : comparison :=
  lex (cA x.1 y.1) (cB x.2 y.2).

Lemma pair_TotalCompare {A B} (cA : A → A → comparison)
    (cB : B → B → comparison) :
  TotalCompare cA → TotalCompare cB → TotalCompare (pair_compare cA cB).
Proof.
  intros HA HB. split; unfold pair_compare.
  - intros [a b] [a' b']; simpl. split.
    + destruct (cA a a') eqn:E; simpl; try done.
      intros E'. apply (tc_eq _ HA) in E. apply (tc_eq _ HB) in E'. by subst.
    + intros [= -> ->].
      by rewrite (TotalCompare_refl cA HA), (TotalCompare_refl cB HB).
  - intros [a b] [a' b']; simpl.
    destruct (cA a a') eqn:E; simpl.
    + apply (tc_eq _ HA) in E. subst. rewrite (TotalCompare_refl cA HA).
      simpl. apply (tc_gt _ HB).
    + split; [done|]. destruct (cA a' a) eqn:E'; simpl; try done.
      * apply (tc_eq _ HA) in E'. subst.
        by rewrite (TotalCompare_refl cA HA) in E.
      * by destruct (TotalCompare_asym cA HA a a').
    + apply (tc_gt _ HA) in E. by rewrite E.
  - intros [a b] [a' b'] [a'' b'']; simpl.
    destruct (cA a a') eqn:E1; simpl; try done;
      destruct (cA a' a'') eqn:E2; simpl; try done.
    + apply (tc_eq _ HA) in E1, E2. subst.
      rewrite (TotalCompare_refl cA HA). simpl. apply (tc_trans _ HB).
    + apply (tc_eq _ HA) in E1. subst. by rewrite E2.
    + apply (tc_eq _ HA) in E2. subst. by rewrite E1.
    + by rewrite (tc_trans _ HA _ _ _ E1 E2).
Qed.

Definition Label_key (l : Label) : string * (string * (string * string)) :=
  (label_dir l, (label_name l, (label_toolchain_dir l, label_toolchain_name l))).

Lemma Label_key_inj (a b : Label) : Label_key a = Label_key b → a = b.
Proof. destruct a, b. unfold Label_key; simpl. by intros [= -> -> -> ->]. Qed.

Lemma Label_TotalCompare : TotalCompare Label_compare.
Proof.
  pose proof (pair_TotalCompare _ _ String_TotalCompare
    (pair_TotalCompare _ _ String_TotalCompare
      (pair_TotalCompare _ _ String_TotalCompare String_TotalCompare))) as H.
  split.
  - intros x y. change (Label_compare x y) with
      (pair_compare String.compare (pair_compare String.compare
        (pair_compare String.compare String.compare))
        (Label_key x) (Label_key y)).
    rewrite (tc_eq _ H). split; [apply Label_key_inj | by intros ->].
  - intros x y. apply (tc_gt _ H (Label_key x) (Label_key y)).
  - intros x y z. apply (tc_trans _ H (Label_key x) (Label_key y) (Label_key z)).
Qed.

Lemma Label_lt_irrefl (a : Label) : Label_lt a a = false.
Proof.
  unfold Label_lt. by rewrite (TotalCompare_refl _ Label_TotalCompare).
Qed.

Lemma Label_lt_asym (a b : Label) : Label_lt a b = true → Label_lt b a = false.
Proof.
  unfold Label_lt. destruct (Label_compare a b) eqn:E; try done. intros _.
  destruct (Label_compare b a) eqn:E'; try done.
  by destruct (TotalCompare_asym _ Label_TotalCompare _ _ E E').
Qed.

Lemma Label_lt_trans (a b c : Label) :
  Label_lt a b = true → Label_lt b c = true → Label_lt a c = true.
Proof.
  unfold Label_lt.
  destruct (Label_compare a b) eqn:E1; try done.
  destruct (Label_compare b c) eqn:E2; try done.
  by rewrite (tc_trans _ Label_TotalCompare _ _ _ E1 E2).
Qed.

Lemma Label_lt_total (a b : Label) :
  Label_lt a b = false → Label_lt b a = false → a = b.
Proof.
  unfold Label_lt. destruct (Label_compare a b) eqn:E; try done.
  - intros _ _. by apply (tc_eq _ Label_TotalCompare).
  - apply (tc_gt _ Label_TotalCompare) in E. by rewrite E.
Qed.

(** ** [std::sort] *)

(** [std::sort(first, last, comp)] leaves the range sorted with respect to
    the strict weak order [comp] and is free in how it gets there. The model
    below is the insertion sort that keeps equal elements in their order;
    [std_sort_unique] shows that for keys that are pairwise different every
    other admissible implementation returns the same sequence. *)
Section StdSort.
Context {A : Type} (comp : A → A → bool).

Fixpoint sort_insert (x : A) (l : list A) : list A :=
  match l with
  | [] => [x]
  | y :: l' => if comp y x then y :: sort_insert x l' else x :: y :: l'
  end.

Definition std_sort (l : list A) : list A := foldr sort_insert [] l.

(** Ascending with respect to [comp]: no element is followed by a
    smaller one. *)
Definition ascending : relation A := λ a b, comp b a = false.

Hypothesis comp_asym : ∀ a b, comp a b = true → comp b a = false.

Lemma sort_insert_Permutation (x : A) (l : list A) :
  sort_insert x l ≡ₚ x :: l.
Proof.
  induction l as [|y l IH]; simpl; [done|].
  destruct (comp y x); [|done]. rewrite IH. apply Permutation_swap.
Qed.

Lemma std_sort_Permutation (l : list A) : std_sort l ≡ₚ l.
Proof.
  induction l as [|x l IH]; simpl; [done|].
  by rewrite sort_insert_Permutation, IH.
Qed.

Lemma sort_insert_Sorted (x : A) (l : list A) :
  Sorted ascending l → Sorted ascending (sort_insert x l).
Proof.
  induction 1 as [|y l Hl IH Hy]; simpl.
  - repeat constructor.
  - destruct (comp y x) eqn:E.
    + constructor; [done|].
      destruct Hy as [|z l Hz]; simpl.
      * constructor. by apply comp_asym.
      * destruct (comp z x); constructor; [done|]. by apply comp_asym.
    + constructor; [by constructor|]. by constructor.
Qed.

Lemma std_sort_Sorted (l : list A) : Sorted ascending (std_sort l).
Proof.
  induction l as [|x l IH]; simpl; [constructor|].
  by apply sort_insert_Sorted.
Qed.

End StdSort.

(** Two sorted arrangements of the same elements coincide as soon as
    elements that compare equivalent are equal: whatever algorithm
    [std::sort] runs, its result is then the one of [std_sort]. *)
Lemma std_sort_unique {A} (comp : A → A → bool) (l l' : list A) :
  Transitive (ascending comp) →
  (∀ x y, x ∈ l → y ∈ l → comp x y = false → comp y x = false → x = y) →
  l' ≡ₚ l → Sorted (ascending comp) l' → Sorted (ascending comp) l →
  l' = l.
Proof.
  intros Htrans Hkey Hperm Hs' Hs.
  apply (Sorted_unique_strong (ascending comp)); [|done..].
  intros x y Hx Hy Hxy Hyx. apply Hkey; [by rewrite <- Hperm|done..].
Qed.

(** ** The aggregator of ninja rules *)

(** [NinjaWriter::TargetRulePair] and [NinjaWriter::PerToolchainRules]. *)
Definition TargetRulePair : Type := Target * string.
Abbreviation PerToolchainRules := (gmap ToolchainPtr (list TargetRulePair)).

(** [struct TargetWriteInfo]; the mutex makes the body of the critical
    section of [BackgroundDoWrite] one atomic step on [rules]. *)
Record TargetWriteInfo := mkTargetWriteInfo {
  rules : PerToolchainRules
}.

(** [rules[toolchain].emplace_back(target, rule)]: [operator[]] creates an
    empty vector for a toolchain seen for the first time. *)
Definition rules_emplace_back (tc : ToolchainPtr) (p : TargetRulePair)
    (r : PerToolchainRules) : PerToolchainRules :=
  <[tc := default [] (r !! tc) ++ [p]]> r.

Inductive Item :=
  | ItemTarget (t : Target)
  | ItemConfig (l : Label)
  | ItemToolchain (l : Label)
  | ItemPool (l : Label).

(** [Item::AsTarget]: null for every item that is not a target. *)
Definition AsTarget (i : Item) : option Target :=
  match i with
  | ItemTarget t => Some t
  | _ => None
  end.

Inductive RecordState := Declared | Loading | Resolved.

Record BuilderRecord := mkBuilderRecord {
  item : Item;
  record_state : RecordState
}.

(** The closure handed to [Scheduler::ScheduleWork] captures the aggregator
    and the target; running it calls [BackgroundDoWrite] on them. *)
Inductive Task := WriteTask (target : Target).

Definition task_target (k : Task) : Target :=
  match k with WriteTask t => t end.

(** The comparator of the finalization sort (lines 551-554). *)
Definition rule_less (a b : TargetRulePair) : bool :=
  Label_lt (label a.1) (label b.1).

Section Aggregator.
(** [NinjaTargetWriter::RunAndWriteFile], the injected per-target writer. *)
Variable RunAndWriteFile : Target → string.

Definition BackgroundDoWrite (write_info : TargetWriteInfo)
    (target : Target) : TargetWriteInfo :=
  let rule := RunAndWriteFile target in
  {| rules := rules_emplace_back (toolchain target) (target, rule)
                (rules write_info) |}.

(** [g_scheduler->ScheduleWork] appends the task to the pool's queue. *)
Definition ItemResolvedAndGeneratedCallback (record : BuilderRecord)
    (queue : list Task) : list Task :=
  match AsTarget (item record) with
  | Some target => queue ++ [WriteTask target]
  | None => queue
  end.

(** The dispatch thread reports the resolved records one after another. *)
Definition dispatch (records : list BuilderRecord) : list Task :=
  foldl (λ q r, ItemResolvedAndGeneratedCallback r q) [] records.

Definition run_task (write_info : TargetWriteInfo) (k : Task)
    : TargetWriteInfo :=
  BackgroundDoWrite write_info (task_target k).

(** The workers: the critical sections are serialised by the lock, in
    the order [order] in which the tasks reach it. *)
Definition run_workers (order : list Task) (write_info : TargetWriteInfo)
    : TargetWriteInfo :=
  foldl run_task write_info order.

(** The finalization pass of [RunGen] (lines 549-554). *)
Definition sort_rules (r : PerToolchainRules) : PerToolchainRules :=
  std_sort rule_less <$> r.

(** What a toolchain holds after the tasks [order]. *)
Definition entries_of (tc : ToolchainPtr) (order : list Task)
    : list TargetRulePair :=
  (λ k, (task_target k, RunAndWriteFile (task_target k))) <$>
    filter (λ k, toolchain (task_target k) = tc) order.

Lemma run_workers_lookup (order : list Task) (wi : TargetWriteInfo)
    (tc : ToolchainPtr) :
  rules (run_workers order wi) !! tc =
    match entries_of tc order with
    | [] => rules wi !! tc
    | es => Some (default [] (rules wi !! tc) ++ es)
    end.
Proof.
  revert wi. induction order as [|[t] order IH]; intros wi; [done|].
  change (run_workers (WriteTask t :: order) wi)
    with (run_workers order (run_task wi (WriteTask t))).
  rewrite IH. clear IH. unfold entries_of. rewrite filter_cons.
  unfold run_task, BackgroundDoWrite, rules_emplace_back.
  cbn [task_target rules].
  destruct (decide (toolchain t = tc)) as [->|Hne].
  - rewrite lookup_insert_eq, fmap_cons. cbn [default task_target].
    destruct (_ <$> filter _ order); [done|]. unfold id. by rewrite <- List.app_assoc.
  - by rewrite lookup_insert_ne.
Qed.

End Aggregator.

(** ** The Builder *)

Record Builder := mkBuilder {
  records : list BuilderRecord
}.

(** Modelled from the spec: [Builder::GetAllResolvedTargets] (gn/builder.cc
    is not part of this file) returns every Target whose record is in
    state resolved. *)
Definition GetAllResolvedTargets (b : Builder) : list Target :=
  omap (λ r, match record_state r with
             | Resolved => AsTarget (item r)
             | _ => None
             end) (records b).

(** ** Standard output and the calls to collaborators *)

Inductive TextDecoration :=
  | DECORATION_NONE
  | DECORATION_YELLOW
  | DECORATION_GREEN.

(** [Err(Location(), message, help_text)]; the location is always the empty
    one in this file. *)
Record Err := mkErr {
  err_message : string;
  err_help : string
}.

Inductive VsVersion := Vs2013 | Vs2015 | Vs2017 | Vs2019.

Inductive XcodeBuildSystem := kLegacy | kNew.

(** [XcodeWriter::Options]. *)
Record XcodeOptions := mkXcodeOptions {
  project_name : string;
  root_target_name : string;
  ninja_executable : string;
  dir_filters_string : string;
  build_system : XcodeBuildSystem
}.

(** The calls this file makes to code of other files, with the arguments
    that this file computes. *)
Inductive Call :=
  | Setup_set_gen_empty_args
  | Setup_DoSetup (build_dir : string) (force_create : bool)
  | Setup_set_check_public_headers
  | Setup_set_check_system_includes
  | Setup_Run
  | NinjaWriter_RunAndWriteFiles (r : PerToolchainRules)
  | WriteRuntimeDepsFilesIfNecessary
  | EclipseWriter_RunAndWriteFile
  | VisualStudioWriter_RunAndWriteFiles (version : VsVersion)
      (sln_name filters win_kit ninja_extra_args : string) (no_deps : bool)
  | XcodeWriter_RunAndWriteFiles (options : XcodeOptions)
  | QtCreatorWriter_RunAndWriteFile (root_target : string)
  | JSONProjectWriter_RunAndWriteFiles
      (file_name exec_script exec_script_extra_args filters : string)
      (quiet : bool)
  | RustProjectWriter_RunAndWriteFiles (file_name : string) (quiet : bool)
  | CompileCommandsWriter_RunAndWriteFiles
      (file_name target_filters : string) (quiet : bool).

Inductive Event :=
  | OutputString (s : string) (d : TextDecoration)
  | PrintToStdout (e : Err)
  | Called (c : Call).

(** The characters that a string literal of the source escapes. *)
Definition nl : string := String (ascii_of_nat 10) EmptyString.
Definition dq : string := String (ascii_of_nat 34) EmptyString.

(** ** [std::multimap<SourceFile, const Target*>] *)

(** The entries in iteration order: ascending keys, and entries of one key
    in the order of their insertion. An iterator is the part of the
    sequence from its position on; [end()] is the empty part. *)
Definition multimap : Type := list (SourceFile * Target).

Definition mm_ordered (m : multimap) : Prop :=
  Sorted (λ a b, SourceFile_lt b.1 a.1 = false) m.

(** [insert]: behind the entries whose key is not greater. *)
Fixpoint mm_insert (e : SourceFile * Target) (m : multimap) : multimap :=
  match m with
  | [] => [e]
  | e' :: m' =>
      if SourceFile_lt e.1 e'.1 then e :: e' :: m' else e' :: mm_insert e m'
  end.

(** The multimap after the insertions [log], oldest first. *)
Definition mm_of_insertions (log : list (SourceFile * Target)) : multimap :=
  foldl (λ m e, mm_insert e m) [] log.

(** [upper_bound(key)]: the first position whose key is greater. *)
Fixpoint upper_bound (m : multimap) (key : SourceFile) : multimap :=
  match m with
  | [] => []
  | e :: m' => if SourceFile_lt key e.1 then m else upper_bound m' key
  end.

(** ** The validator of generated inputs *)

(** [for (cur_output : outputs) if (cur_output == output_file) return]. *)
Fixpoint scan_outputs (output_file : OutputFile) (outputs : list OutputFile)
    : bool :=
  match outputs with
  | [] => false
  | cur_output :: outputs' =>
      if String.eqb cur_output output_file then true
      else scan_outputs output_file outputs'
  end.

Fixpoint scan_targets (output_file : OutputFile) (targets : list Target)
    : option Target :=
  match targets with
  | [] => None
  | target :: targets' =>
      if scan_outputs output_file (computed_outputs target) then Some target
      else scan_targets output_file targets'
  end.

(** What [FindTargetThatGeneratesFile] does besides returning: it
    constructs an [OutputFile] and it visits targets. *)
Inductive Step :=
  | ConstructOutputFile (build_settings : BuildSettings) (file : SourceFile)
  | ScanTarget (target : Target).

(** The loop of lines 101-106 with its turns recorded: a turn reads the
    computed outputs of one target, and the loop ends at the first target
    that has the file. *)
Fixpoint scan_targets_steps (output_file : OutputFile) (targets : list Target)
    : option Target * list Step :=
  match targets with
  | [] => (None, [])
  | target :: targets' =>
      if scan_outputs output_file (computed_outputs target)
      then (Some target, [ScanTarget target])
      else
        let '(found, steps) := scan_targets_steps output_file targets' in
        (found, ScanTarget target :: steps)
  end.

(** The first loop of [PrintInvalidGeneratedInput] (lines 122-127). *)
Fixpoint any_non_default (default_toolchain : Label) (targets : list Target)
    : bool :=
  match targets with
  | [] => false
  | target :: targets' =>
      if Label_ne (toolchain_label (settings target)) default_toolchain
      then true
      else any_non_default default_toolchain targets'
  end.

(** The inner loop of [CheckForInvalidGeneratedInputs] (lines 169-170):
    it advances [cur] up to [end_of_range]. Two iterators of one container
    are equal exactly when as many entries follow them. Stepping beyond
    [end()] is undefined in the source; the model stops there. *)
Fixpoint collect_range (cur end_of_range : multimap) (targets : list Target)
    : list Target * multimap :=
  match cur with
  | [] => (targets, [])
  | e :: cur' =>
      if decide (length cur = length end_of_range) then (targets, cur)
      else collect_range cur' end_of_range (targets ++ [e.2])
  end.

Section Validator.
(** The constructor [OutputFile(build_settings, source_file)]. *)
Variable OutputFile_of : BuildSettings → SourceFile → OutputFile.
(** [Label::GetUserVisibleName(include_toolchain)]. *)
Variable GetUserVisibleName : Label → bool → string.

Definition FindTargetThatGeneratesFile (builder : Builder)
    (file : SourceFile) : option Target :=
  let targets := GetAllResolvedTargets builder in
  match targets with
  | [] => None
  | first :: _ =>
      let output_file := OutputFile_of (build_settings (settings first)) file in
      scan_targets output_file targets
  end.

(** [FindTargetThatGeneratesFile] again, step by step, to tell what the
    function does on its way to the result. [targets[0]] is undefined on an
    empty vector: the model has no value there, and the whole call has none
    ([None]) if it gets there. Every construction of an [OutputFile]
    (line 100) and every turn of the loop over the targets (line 101) is
    recorded, in the order in which they happen. *)
Definition FindTargetThatGeneratesFile_steps (builder : Builder)
    (file : SourceFile) : option (option Target * list Step) :=
  let targets := GetAllResolvedTargets builder in
  if bool_decide (targets = []) then Some (None, [])
  else
    first ← targets !! 0%nat;
    let output_file := OutputFile_of (build_settings (settings first)) file in
    let '(found, steps) := scan_targets_steps output_file targets in
    Some (found,
          ConstructOutputFile (build_settings (settings first)) file :: steps).

(** The flag [show_toolchains] as it stands at line 133. *)
Definition show_toolchains (default_toolchain : Label)
    (targets : list Target) (generator : option Target) : bool :=
  let show := any_non_default default_toolchain targets in
  match generator with
  | Some g =>
      if Label_ne (toolchain_label (settings g)) default_toolchain
      then true else show
  | None => show
  end.

Definition target_lines (show : bool) (targets : list Target) : string :=
  foldl (λ err target,
           err +:+ ("  " +:+ GetUserVisibleName (label target) show +:+ nl))
        "" targets.

(** Lines 134-147: the text of the diagnostic, every label of which is
    printed with the one flag [show]. *)
Definition invalid_input_text (file : SourceFile) (targets : list Target)
    (generator : option Target) (show : bool) : string :=
  let target_str :=
    if decide (1 < length targets) then "targets" else "target" in
  let err :=
    "The file:" +:+ nl +:+
    ("  " +:+ file +:+ nl) +:+
    ("is listed as an input or source for the " +:+ target_str +:+ ":"
       +:+ nl) +:+
    target_lines show targets in
  match generator with
  | Some g =>
      err +:+
      ("but this file was not generated by any dependencies of the "
         +:+ target_str +:+ ". The target" +:+ nl +:+
         "that generates the file is:" +:+ nl +:+ "  ") +:+
      GetUserVisibleName (label g) show
  | None => err +:+ "but no targets in the build generate that file."
  end.

(** The error that [PrintInvalidGeneratedInput] prints. The source reads
    [targets[0]], so it is only defined on a non-empty vector. *)
Definition PrintInvalidGeneratedInput (builder : Builder)
    (file : SourceFile) (targets : list Target) : option Err :=
  match targets with
  | [] => None
  | first :: _ =>
      let default_toolchain := default_toolchain_label (settings first) in
      let generator := FindTargetThatGeneratesFile builder file in
      let show := show_toolchains default_toolchain targets generator in
      let target_str :=
        if decide (1 < length targets) then "targets" else "target" in
      Some {| err_message :=
                "Input to " +:+ target_str +:+
                " not generated by a dependency.";
              err_help := invalid_input_text file targets generator show |}
  end.

Definition print_event (e : option Err) : list Event :=
  match e with
  | Some e => [PrintToStdout e]
  | None => []
  end.

(** Lines 172-173: the diagnostic of one group and the empty line. *)
Definition print_group (builder : Builder)
    (group : SourceFile * list Target) : list Event :=
  print_event (PrintInvalidGeneratedInput builder group.1 group.2)
  ++ [OutputString nl DECORATION_NONE].

(** The outer loop (lines 162-174): the counter, and the groups
    [(bad_input, targets)] in the order in which they are printed. *)
Fixpoint check_loop (fuel : nat) (unknown_inputs cur : multimap)
    (errors_found : Z) (groups : list (SourceFile * list Target))
    : Z * list (SourceFile * list Target) :=
  match fuel, cur with
  | S fuel', (bad_input, _) :: _ =>
      let errors_found := (errors_found + 1)%Z in
      let end_of_range := upper_bound unknown_inputs bad_input in
      let '(targets, cur) := collect_range cur end_of_range [] in
      check_loop fuel' unknown_inputs cur errors_found
        (groups ++ [(bad_input, targets)])
  | _, _ => (errors_found, groups)
  end.

Definition generated_inputs_help : string :=
  "If you have generated inputs, there needs to be a dependency path "
  +:+ "between the" +:+ nl +:+ "two targets in addition to just listing the files. For "
  +:+ "indirect dependencies," +:+ nl +:+ "the intermediate ones must be public_deps. "
  +:+ "data_deps don't count since they're" +:+ nl +:+ "only runtime dependencies. If "
  +:+ "you think a dependency chain exists, it might be" +:+ nl +:+ "because the chain "
  +:+ "is private. Try " +:+ dq +:+ "gn path" +:+ dq +:+ " to analyze." +:+ nl.

Definition errors_found_line (errors_found : Z) : string :=
  nl +:+ pretty errors_found +:+ " generated input errors found." +:+ nl.

(** [unknown_inputs] is the snapshot that
    [g_scheduler->GetUnknownGeneratedInputs()] returns. Every turn of the
    loop passes at least one entry, so as many turns as there are entries
    are enough. *)
Definition CheckForInvalidGeneratedInputs (builder : Builder)
    (unknown_inputs : multimap) : bool * list Event :=
  match unknown_inputs with
  | [] => (true, [])
  | _ =>
      let '(errors_found, groups) :=
        check_loop (length unknown_inputs) unknown_inputs unknown_inputs
          0%Z [] in
      let out := groups ≫= print_group builder in
      let out := out ++ [OutputString generated_inputs_help DECORATION_NONE] in
      let out :=
        if decide (1 < errors_found)%Z
        then out ++ [OutputString (errors_found_line errors_found)
                       DECORATION_YELLOW]
        else out in
      (false, out)
  end.

End Validator.

(** ** Switches *)

Definition kSwitchCheck : string := "check".
Definition kSwitchFilters : string := "filters".
Definition kSwitchIde : string := "ide".
Definition kSwitchIdeValueEclipse : string := "eclipse".
Definition kSwitchIdeValueQtCreator : string := "qtcreator".
Definition kSwitchIdeValueVs : string := "vs".
Definition kSwitchIdeValueVs2013 : string := "vs2013".
Definition kSwitchIdeValueVs2015 : string := "vs2015".
Definition kSwitchIdeValueVs2017 : string := "vs2017".
Definition kSwitchIdeValueVs2019 : string := "vs2019".
Definition kSwitchIdeValueWinSdk : string := "winsdk".
Definition kSwitchIdeValueXcode : string := "xcode".
Definition kSwitchIdeValueJson : string := "json".
Definition kSwitchNinjaExecutable : string := "ninja-executable".
Definition kSwitchNinjaExtraArgs : string := "ninja-extra-args".
Definition kSwitchNoDeps : string := "no-deps".
Definition kSwitchRootTarget : string := "root-target".
Definition kSwitchSln : string := "sln".
Definition kSwitchXcodeProject : string := "xcode-project".
Definition kSwitchXcodeBuildSystem : string := "xcode-build-system".
Definition kSwitchXcodeBuildsystemValueLegacy : string := "legacy".
Definition kSwitchXcodeBuildsystemValueNew : string := "new".
Definition kSwitchJsonFileName : string := "json-file-name".
Definition kSwitchJsonIdeScript : string := "json-ide-script".
Definition kSwitchJsonIdeScriptArgs : string := "json-ide-script-args".
Definition kSwitchExportCompileCommands : string := "export-compile-commands".
Definition kSwitchExportRustProject : string := "export-rust-project".
Definition kSwitchJumboStats : string := "jumbo-stats".

(** ** The process and the collaborators *)

(** What the code of this file observes of the rest of the program: the
    command line of the process, the names of the two switches declared in
    gn/switches.h, the clock, and the outcome of every call it makes. A
    call that returns [false] leaves its error in [*err]: [Some e]. *)
Record World := mkWorld {
  HasSwitch : string → bool;
  GetSwitchValueASCII : string → string;
  kQuiet : string;
  kArgs : string;
  DoSetup_result : string → bool → bool;
  Run_result : bool;
  (** the records that the Builder reports to the callback during
      [setup->Run()], in the order of the dispatch thread *)
  resolved_records : list BuilderRecord;
  (** the order in which the tasks of the pool enter the critical section
      of [BackgroundDoWrite] *)
  schedule : list Task → list Task;
  builder : Builder;
  GetUnknownGeneratedInputs : multimap;
  call_result : Call → option Err;
  call_elapsed_ms : Call → Z;
  gen_elapsed_ms : Z;
  GetInputFileCount : Z
}.

(** ** Jumbo statistics *)

(** [std::set<const Target*>]: ascending addresses, one entry per address. *)
Fixpoint set_insert (t : Target) (s : list Target) : list Target :=
  match s with
  | [] => [t]
  | u :: s' =>
      if (target_addr t <? target_addr u)%positive then t :: u :: s'
      else if (target_addr u <? target_addr t)%positive
           then u :: set_insert t s'
           else u :: s'
  end.

Record JumboStats := mkJumboStats {
  jumbo_allowed_count : Z;
  jumbo_disallowed_count : Z;
  jumbo_not_configured_targets : list Target
}.

(** The body of the loop over the rules of a toolchain (lines 558-565). *)
Definition jumbo_visit (st : JumboStats) (rule : TargetRulePair)
    : JumboStats :=
  if is_jumbo_configured rule.1 then
    if is_jumbo_allowed rule.1
    then {| jumbo_allowed_count := jumbo_allowed_count st + 1;
            jumbo_disallowed_count := jumbo_disallowed_count st;
            jumbo_not_configured_targets := jumbo_not_configured_targets st |}
    else {| jumbo_allowed_count := jumbo_allowed_count st;
            jumbo_disallowed_count := jumbo_disallowed_count st + 1;
            jumbo_not_configured_targets := jumbo_not_configured_targets st |}
  else if IsBinary rule.1
    then {| jumbo_allowed_count := jumbo_allowed_count st;
            jumbo_disallowed_count := jumbo_disallowed_count st;
            jumbo_not_configured_targets :=
              set_insert rule.1 (jumbo_not_configured_targets st) |}
    else st.

Definition jumbo_init : JumboStats :=
  {| jumbo_allowed_count := 0;
     jumbo_disallowed_count := 0;
     jumbo_not_configured_targets := [] |}.

(** The loop over the toolchains (lines 549-568) sorts the rules of each
    and, when the statistics are asked for, visits them. The visits of one
    toolchain do not read the rules of another, so the statistics are those
    of visiting the sorted rules toolchain by toolchain. *)
Definition jumbo_collect (jumbo_stats : bool) (sorted : PerToolchainRules)
    : JumboStats :=
  if jumbo_stats
  then foldl (λ st cur_toolchain, foldl jumbo_visit st cur_toolchain.2)
         jumbo_init (map_to_list sorted)
  else jumbo_init.

(** The comparator of the second sort (lines 615-617). *)
Definition sources_less (a b : Target) : bool :=
  bool_decide (length (sources a) < length (sources b)).

(** ** The writers of project files *)

Section Driver.
Variable RunAndWriteFile : Target → string.
Variable OutputFile_of : BuildSettings → SourceFile → OutputFile.
Variable GetUserVisibleName : Label → bool → string.

(** The end that the writers share: the call, then
    [if (res && !quiet) OutputString(... took ...ms); return res;]. *)
Definition run_writer (w : World) (quiet : bool) (c : Call)
    (what : string) : option Err * list Event :=
  match call_result w c with
  | None =>
      (None,
       Called c ::
       if negb quiet
       then [OutputString
               ("Generating " +:+ what +:+ " took " +:+
                pretty (call_elapsed_ms w c) +:+ "ms" +:+ nl)
               DECORATION_NONE]
       else [])
  | Some e => (Some e, [Called c])
  end.

(** The value of a switch that is read only when it is present. *)
Definition switch_or_empty (w : World) (switch : string) : string :=
  if HasSwitch w switch then GetSwitchValueASCII w switch else "".

Definition RunIdeWriter (w : World) (ide : string)
    : option Err * list Event :=
  let quiet := HasSwitch w (kQuiet w) in
  if String.eqb ide kSwitchIdeValueEclipse then
    run_writer w quiet EclipseWriter_RunAndWriteFile "Eclipse settings"
  else if String.eqb ide kSwitchIdeValueVs
          || String.eqb ide kSwitchIdeValueVs2013
          || String.eqb ide kSwitchIdeValueVs2015
          || String.eqb ide kSwitchIdeValueVs2017
          || String.eqb ide kSwitchIdeValueVs2019 then
    let version :=
      if String.eqb ide kSwitchIdeValueVs2013 then Vs2013
      else if String.eqb ide kSwitchIdeValueVs2015 then Vs2015
      else if String.eqb ide kSwitchIdeValueVs2017 then Vs2017
      else Vs2019 in
    let sln_name := switch_or_empty w kSwitchSln in
    let filters := switch_or_empty w kSwitchFilters in
    let win_kit := switch_or_empty w kSwitchIdeValueWinSdk in
    let ninja_extra_args := switch_or_empty w kSwitchNinjaExtraArgs in
    let no_deps := HasSwitch w kSwitchNoDeps in
    run_writer w quiet
      (VisualStudioWriter_RunAndWriteFiles version sln_name filters win_kit
         ninja_extra_args no_deps)
      "Visual Studio projects"
  else if String.eqb ide kSwitchIdeValueXcode then
    let project_name := GetSwitchValueASCII w kSwitchXcodeProject in
    let project_name :=
      if String.eqb project_name "" then "all" else project_name in
    let options (bs : XcodeBuildSystem) :=
      {| project_name := project_name;
         root_target_name := GetSwitchValueASCII w kSwitchRootTarget;
         ninja_executable := GetSwitchValueASCII w kSwitchNinjaExecutable;
         dir_filters_string := GetSwitchValueASCII w kSwitchFilters;
         build_system := bs |} in
    let build_system := GetSwitchValueASCII w kSwitchXcodeBuildSystem in
    let run (bs : XcodeBuildSystem) :=
      run_writer w quiet (XcodeWriter_RunAndWriteFiles (options bs))
        "Xcode projects" in
    if negb (String.eqb build_system "") then
      if String.eqb build_system kSwitchXcodeBuildsystemValueNew then
        run kNew
      else if String.eqb build_system kSwitchXcodeBuildsystemValueLegacy then
        run kLegacy
      else
        (Some {| err_message := "Unknown build system: " +:+ build_system;
                 err_help := "" |}, [])
    else run kLegacy
  else if String.eqb ide kSwitchIdeValueQtCreator then
    let root_target := switch_or_empty w kSwitchRootTarget in
    run_writer w quiet (QtCreatorWriter_RunAndWriteFile root_target)
      "QtCreator projects"
  else if String.eqb ide kSwitchIdeValueJson then
    let file_name := GetSwitchValueASCII w kSwitchJsonFileName in
    let file_name :=
      if String.eqb file_name "" then "project.json" else file_name in
    let exec_script := GetSwitchValueASCII w kSwitchJsonIdeScript in
    let exec_script_extra_args :=
      GetSwitchValueASCII w kSwitchJsonIdeScriptArgs in
    let filters := GetSwitchValueASCII w kSwitchFilters in
    run_writer w quiet
      (JSONProjectWriter_RunAndWriteFiles file_name exec_script
         exec_script_extra_args filters quiet)
      "JSON projects"
  else
    (Some {| err_message := "Unknown IDE: " +:+ ide; err_help := "" |}, []).

Definition RunRustProjectWriter (w : World) : option Err * list Event :=
  let quiet := HasSwitch w (kQuiet w) in
  let file_name := "rust-project.json" in
  run_writer w quiet (RustProjectWriter_RunAndWriteFiles file_name quiet)
    "rust-project.json".

Definition RunCompileCommandsWriter (w : World)
    : option Err * list Event :=
  let quiet := HasSwitch w (kQuiet w) in
  let file_name := "compile_commands.json" in
  let target_filters :=
    GetSwitchValueASCII w kSwitchExportCompileCommands in
  run_writer w quiet
    (CompileCommandsWriter_RunAndWriteFiles file_name target_filters quiet)
    "compile_commands".

(** ** [RunGen] *)

Definition usage_error : Err :=
  {| err_message := "Need exactly one build directory to generate.";
     err_help :=
       "I expected something more like " +:+ dq +:+ "gn gen out/foo" +:+ dq
       +:+ nl +:+ "You can also see " +:+ dq +:+ "gn help gen" +:+ dq
       +:+ "." |}.

(** The jumbo report (lines 611-630). [std::sort] does not say in which
    order it leaves targets with as many sources as one another; the model
    leaves them in the order of the set, by address. *)
Definition jumbo_report (st : JumboStats) : list Event :=
  let not_configured :=
    std_sort sources_less (jumbo_not_configured_targets st) in
  [OutputString ("Jumbo is not configured in following targets:" +:+ nl)
     DECORATION_NONE]
  ++ map (λ target,
            OutputString
              (GetUserVisibleName (label target) false +:+ " (" +:+
               pretty (length (sources target)) +:+ " sources)" +:+ nl)
              DECORATION_NONE) not_configured
  ++ [OutputString
        (nl +:+ "Jumbo is not configured in " +:+
         pretty (length not_configured) +:+ " targets." +:+ nl)
        DECORATION_NONE;
      OutputString
        ("Jumbo is allowed in " +:+ pretty (jumbo_allowed_count st) +:+
         " targets." +:+ nl) DECORATION_NONE;
      OutputString
        ("Jumbo is disallowed in " +:+ pretty (jumbo_disallowed_count st)
         +:+ " targets." +:+ nl +:+ nl) DECORATION_NONE].

(** The number of rules over all the toolchains (lines 635-637). *)
Definition targets_collected (r : PerToolchainRules) : nat :=
  foldl (λ n cur, n + length cur.2) 0 (map_to_list r).

(** The summary (lines 609-646). *)
Definition report (w : World) (r : PerToolchainRules) (st : JumboStats)
    : list Event :=
  if negb (HasSwitch w (kQuiet w)) then
    (if HasSwitch w kSwitchJumboStats then jumbo_report st else [])
    ++ [OutputString "Done. " DECORATION_GREEN;
        OutputString
          ("Made " +:+ pretty (targets_collected r) +:+ " targets from "
           +:+ pretty (GetInputFileCount w) +:+ " files in " +:+
           pretty (gen_elapsed_ms w) +:+ "ms" +:+ nl)
          DECORATION_NONE]
  else [].

(** A writer that runs only when its switch is present, and the error
    that the driver prints when it fails. *)
Definition optional_writer (w : World) (switch : string)
    (writer : option Err * list Event) : option Err * list Event :=
  if HasSwitch w switch then writer else (None, []).

(** The rules as [setup->Run()] leaves them: every record that the
    Builder resolves goes through the callback, and the pool has run
    every task when [Run] returns. *)
Definition collected_rules (w : World) : TargetWriteInfo :=
  run_workers RunAndWriteFile
    (schedule w (dispatch (resolved_records w)))
    {| rules := ∅ |}.

(** Lines 570-648: from the root ninja files to the exit code. *)
Definition write_and_check (w : World) (r : PerToolchainRules)
    (st : JumboStats) : Z * list Event :=
  let ninja := NinjaWriter_RunAndWriteFiles r in
  match call_result w ninja with
  | Some err => (1%Z, [Called ninja; PrintToStdout err])
  | None =>
  let out := [Called ninja] in
  match call_result w WriteRuntimeDepsFilesIfNecessary with
  | Some err =>
      (1%Z, out ++ [Called WriteRuntimeDepsFilesIfNecessary;
                    PrintToStdout err])
  | None =>
  let out := out ++ [Called WriteRuntimeDepsFilesIfNecessary] in
  let '(ok, printed) :=
    CheckForInvalidGeneratedInputs OutputFile_of GetUserVisibleName
      (builder w) (GetUnknownGeneratedInputs w) in
  let out := out ++ printed in
  if negb ok then (1%Z, out) else
  match optional_writer w kSwitchIde
          (RunIdeWriter w (GetSwitchValueASCII w kSwitchIde)) with
  | (Some err, ev) => (1%Z, out ++ ev ++ [PrintToStdout err])
  | (None, ev) =>
  let out := out ++ ev in
  match optional_writer w kSwitchExportCompileCommands
          (RunCompileCommandsWriter w) with
  | (Some err, ev) => (1%Z, out ++ ev ++ [PrintToStdout err])
  | (None, ev) =>
  let out := out ++ ev in
  match optional_writer w kSwitchExportRustProject
          (RunRustProjectWriter w) with
  | (Some err, ev) => (1%Z, out ++ ev ++ [PrintToStdout err])
  | (None, ev) =>
  let out := out ++ ev in
  (0%Z, out ++ report w r st)
  end end end end end.

Definition RunGen (w : World) (args : list string) : Z * list Event :=
  if negb (length args =? 1)%nat then
    (1%Z, [PrintToStdout usage_error])
  else
    let args0 := default "" (args !! 0) in
    let out :=
      if negb (HasSwitch w (kArgs w)) then [Called Setup_set_gen_empty_args]
      else [] in
    let out := out ++ [Called (Setup_DoSetup args0 true)] in
    if negb (DoSetup_result w args0 true) then (1%Z, out) else
    let out :=
      out ++
      if HasSwitch w kSwitchCheck then
        Called Setup_set_check_public_headers ::
        if String.eqb (GetSwitchValueASCII w kSwitchCheck) "system"
        then [Called Setup_set_check_system_includes] else []
      else [] in
    let out := out ++ [Called Setup_Run] in
    if negb (Run_result w) then (1%Z, out) else
    let write_info := collected_rules w in
    let sorted := sort_rules (rules write_info) in
    let st := jumbo_collect (HasSwitch w kSwitchJumboStats) sorted in
    let '(code, ev) := write_and_check w sorted st in
    (code, out ++ ev).

End Driver.

(** ** A small build, for the examples *)

Module Examples.

Definition default_tc : Label := mkLabel "//toolchain" "default" "" "".
Definition arm_tc : Label := mkLabel "//toolchain" "arm" "" "".

Definition out_debug : BuildSettings := mkBuildSettings "//out/Debug/" "/src".

Definition default_settings : Settings :=
  mkSettings out_debug default_tc default_tc.
Definition arm_settings : Settings :=
  mkSettings out_debug arm_tc default_tc.

(** [//base:base], a source set without jumbo configuration. *)
Definition base : Target :=
  mkTarget 16 (mkLabel "//base" "base" "//toolchain" "default")
    default_settings 1 ["obj/base/base.stamp"] ["a.cc"; "b.cc"; "c.cc"]
    false false true.

(** [//base:gen], an action that writes [gen/base/b.h]; it is not a
    binary target but carries a jumbo configuration. *)
Definition gen : Target :=
  mkTarget 32 (mkLabel "//base" "gen" "//toolchain" "default")
    default_settings 1 ["gen/base/b.h"] [] true true false.

(** [//app:app], an executable, jumbo disallowed. *)
Definition app : Target :=
  mkTarget 48 (mkLabel "//app" "app" "//toolchain" "default")
    default_settings 1 ["app"] ["main.cc"] true false true.

(** [//app:app] again, in the arm toolchain. *)
Definition app_arm : Target :=
  mkTarget 64 (mkLabel "//app" "app" "//toolchain" "arm")
    arm_settings 2 ["arm/app"] ["main.cc"] false false true.

Definition the_records : list BuilderRecord :=
  [ mkBuilderRecord (ItemTarget base) Resolved;
    mkBuilderRecord (ItemToolchain default_tc) Resolved;
    mkBuilderRecord (ItemTarget gen) Resolved;
    mkBuilderRecord (ItemConfig (mkLabel "//build" "cfg" "//toolchain" "default"))
      Resolved;
    mkBuilderRecord (ItemTarget app) Resolved;
    mkBuilderRecord (ItemTarget app_arm) Resolved ].

Definition the_builder : Builder := mkBuilder the_records.

(** The per-target writer, the [OutputFile] constructor and the printer
    of labels of the examples. *)
Definition write_rule (t : Target) : string :=
  "build " +:+ label_dir (label t) +:+ ":" +:+ label_name (label t).

Definition output_file_of (bs : BuildSettings) (f : SourceFile) : OutputFile :=
  match f with
  | String "/" (String "/" (String "o" (String "u" (String "t"
      (String "/" (String "D" (String "e" (String "b" (String "u"
      (String "g" (String "/" rest))))))))))) => rest
  | _ => "../../" +:+ f
  end.

Definition user_visible_name (l : Label) (include_toolchain : bool)
    : string :=
  label_dir l +:+ ":" +:+ label_name l +:+
  if include_toolchain
  then "(" +:+ label_toolchain_dir l +:+ ":" +:+ label_toolchain_name l
       +:+ ")"
  else "".

(** A command line given by the list of its switches. *)
Definition command_line (switches : list (string * string)) (w : World)
    : World :=
  {| HasSwitch := λ s, bool_decide (s ∈ switches.*1);
     GetSwitchValueASCII :=
       λ s, default "" ((λ iv, iv.2.2) <$>
                          list_find (λ kv, kv.1 = s) switches);
     kQuiet := kQuiet w;
     kArgs := kArgs w;
     DoSetup_result := DoSetup_result w;
     Run_result := Run_result w;
     resolved_records := resolved_records w;
     schedule := schedule w;
     builder := builder w;
     GetUnknownGeneratedInputs := GetUnknownGeneratedInputs w;
     call_result := call_result w;
     call_elapsed_ms := call_elapsed_ms w;
     gen_elapsed_ms := gen_elapsed_ms w;
     GetInputFileCount := GetInputFileCount w |}.

(** A run in which every collaborator succeeds and nothing is wrong with
    the generated inputs; the pool runs the tasks last in, first out. *)
Definition quiet_world : World :=
  {| HasSwitch := λ _, false;
     GetSwitchValueASCII := λ _, "";
     kQuiet := "q";
     kArgs := "args";
     DoSetup_result := λ _ _, true;
     Run_result := true;
     resolved_records := the_records;
     schedule := reverse;
     builder := the_builder;
     GetUnknownGeneratedInputs := [];
     call_result := λ _, None;
     call_elapsed_ms := λ _, 12%Z;
     gen_elapsed_ms := 340%Z;
     GetInputFileCount := 5%Z |}.

End Examples.

(** * Properties *)

(** ** The callback and the aggregator *)

Section AggregatorFacts.
Variable RunAndWriteFile : Target → string.

Lemma callback_spec (record : BuilderRecord) (queue : list Task) :
  ItemResolvedAndGeneratedCallback record queue =
    queue ++ option_list (WriteTask <$> AsTarget (item record)).
Proof.
  unfold ItemResolvedAndGeneratedCallback.
  destruct (AsTarget (item record)); simpl; [done|]. by rewrite app_nil_r.
Qed.

Lemma dispatch_from (records : list BuilderRecord) (queue : list Task) :
  foldl (λ q r, ItemResolvedAndGeneratedCallback r q) queue records =
    queue ++ (WriteTask <$> omap (λ r, AsTarget (item r)) records).
Proof.
  revert queue. induction records as [|r records IH]; intros queue; simpl.
  - by rewrite app_nil_r.
  - rewrite IH, callback_spec.
    destruct (AsTarget (item r)); simpl; [|by rewrite app_nil_r].
    by rewrite <- List.app_assoc.
Qed.

Lemma dispatch_spec (records : list BuilderRecord) :
  dispatch records = WriteTask <$> omap (λ r, AsTarget (item r)) records.
Proof. unfold dispatch. by rewrite dispatch_from. Qed.

Lemma AsTarget_Some (i : Item) (t : Target) :
  AsTarget i = Some t ↔ i = ItemTarget t.
Proof. destruct i; simpl; split; congruence. Qed.

Lemma elem_of_dispatch (records : list BuilderRecord) (t : Target) :
  WriteTask t ∈ dispatch records ↔
  ∃ record, record ∈ records ∧ item record = ItemTarget t.
Proof.
  rewrite dispatch_spec, list_elem_of_fmap. split.
  - intros (t' & [= ->] & Ht). apply list_elem_of_omap in Ht.
    destruct Ht as (r & Hr & Ht). exists r. by rewrite <- AsTarget_Some.
  - intros (r & Hr & Ht). exists t. split; [done|].
    apply list_elem_of_omap. exists r. by rewrite AsTarget_Some.
Qed.

Lemma elem_of_entries_of (tc : ToolchainPtr) (order : list Task)
    (p : TargetRulePair) :
  p ∈ entries_of RunAndWriteFile tc order ↔
  WriteTask p.1 ∈ order ∧ toolchain p.1 = tc ∧ p.2 = RunAndWriteFile p.1.
Proof.
  unfold entries_of. rewrite list_elem_of_fmap. split.
  - intros ([t] & -> & Hk%list_elem_of_filter). simpl in *. tauto.
  - intros (Hin & Htc & Hrule). exists (WriteTask p.1). split.
    + destruct p; simpl in *. by subst.
    + by apply list_elem_of_filter.
Qed.

Lemma collected_lookup (order : list Task) (tc : ToolchainPtr) :
  rules (run_workers RunAndWriteFile order {| rules := ∅ |}) !! tc =
    match entries_of RunAndWriteFile tc order with
    | [] => None
    | es => Some es
    end.
Proof.
  rewrite run_workers_lookup. simpl. rewrite lookup_empty.
  by destruct (entries_of _ _ _).
Qed.

Lemma entries_of_Permutation (tc : ToolchainPtr) (order1 order2 : list Task) :
  order1 ≡ₚ order2 →
  entries_of RunAndWriteFile tc order1 ≡ₚ entries_of RunAndWriteFile tc order2.
Proof. intros H. unfold entries_of. by rewrite H. Qed.

End AggregatorFacts.

(** The order of the finalization sort. *)
Definition rule_le : relation TargetRulePair := ascending rule_less.

Lemma rule_less_asym (a b : TargetRulePair) :
  rule_less a b = true → rule_less b a = false.
Proof. apply Label_lt_asym. Qed.

Global Instance rule_le_trans : Transitive rule_le.
Proof.
  intros a b c. unfold rule_le, ascending, rule_less. intros Hab Hbc.
  destruct (Label_lt (label c.1) (label a.1)) eqn:Hca; [|done].
  destruct (Label_lt (label a.1) (label b.1)) eqn:E.
  - by rewrite (Label_lt_trans _ _ _ Hca E) in Hbc.
  - rewrite (Label_lt_total _ _ Hab E) in Hbc. congruence.
Qed.

Lemma rule_le_antisym (a b : TargetRulePair) :
  rule_less a b = false → rule_less b a = false → label a.1 = label b.1.
Proof. intros Hab Hba. by apply Label_lt_total. Qed.

Section Finalization.
Variable RunAndWriteFile : Target → string.

(** Whatever the order of the appends, the sorted rules of a toolchain
    are the same, provided a label names one target. *)
Lemma sort_rules_schedule (order1 order2 : list Task) :
  order1 ≡ₚ order2 →
  (∀ k1 k2, k1 ∈ order1 → k2 ∈ order1 →
     label (task_target k1) = label (task_target k2) → k1 = k2) →
  sort_rules (rules (run_workers RunAndWriteFile order1 {| rules := ∅ |})) =
  sort_rules (rules (run_workers RunAndWriteFile order2 {| rules := ∅ |})).
Proof.
  intros Hperm Hkey. apply map_eq. intros tc. unfold sort_rules.
  rewrite !lookup_fmap, !collected_lookup.
  pose proof (entries_of_Permutation RunAndWriteFile tc _ _ Hperm) as He.
  destruct (entries_of RunAndWriteFile tc order1) as [|p1 es1] eqn:E1.
  { apply Permutation_nil_l in He. by rewrite <- He. }
  destruct (entries_of RunAndWriteFile tc order2) as [|p2 es2] eqn:E2.
  { by apply Permutation_nil_r in He. }
  simpl. f_equal.
  change (std_sort rule_less (p1 :: es1) = std_sort rule_less (p2 :: es2)).
  apply (std_sort_unique rule_less).
  - apply rule_le_trans.
  - intros x y Hx Hy Hxy Hyx.
    rewrite std_sort_Permutation, <- He, <- E1 in Hx, Hy.
    apply elem_of_entries_of in Hx as (Hx & _ & Hrx).
    apply elem_of_entries_of in Hy as (Hy & _ & Hry).
    pose proof (Hkey _ _ Hx Hy (rule_le_antisym _ _ Hxy Hyx)) as [= Heq].
    destruct x, y; simpl in *. congruence.
  - by rewrite !std_sort_Permutation.
  - apply std_sort_Sorted, rule_less_asym.
  - apply std_sort_Sorted, rule_less_asym.
Qed.

End Finalization.


(** The rules that reach [NinjaWriter] do not depend on the schedule of the
    pool: two runs that differ in nothing but the order in which the
    workers finish give the same exit code and the same trace. *)
Definition with_schedule (w : World) (s : list Task → list Task) : World :=
  {| HasSwitch := HasSwitch w;
     GetSwitchValueASCII := GetSwitchValueASCII w;
     kQuiet := kQuiet w;
     kArgs := kArgs w;
     DoSetup_result := DoSetup_result w;
     Run_result := Run_result w;
     resolved_records := resolved_records w;
     schedule := s;
     builder := builder w;
     GetUnknownGeneratedInputs := GetUnknownGeneratedInputs w;
     call_result := call_result w;
     call_elapsed_ms := call_elapsed_ms w;
     gen_elapsed_ms := gen_elapsed_ms w;
     GetInputFileCount := GetInputFileCount w |}.

Lemma RunGen_schedule_independent
    (RunAndWriteFile : Target → string)
    (OutputFile_of : BuildSettings → SourceFile → OutputFile)
    (GetUserVisibleName : Label → bool → string)
    (w : World) (s : list Task → list Task) (args : list string) :
  (∀ q, schedule w q ≡ₚ q) → (∀ q, s q ≡ₚ q) →
  (∀ k1 k2, k1 ∈ dispatch (resolved_records w) →
     k2 ∈ dispatch (resolved_records w) →
     label (task_target k1) = label (task_target k2) → k1 = k2) →
  RunGen RunAndWriteFile OutputFile_of GetUserVisibleName
    (with_schedule w s) args =
  RunGen RunAndWriteFile OutputFile_of GetUserVisibleName w args.
Proof.
  intros Hw Hs Hkey.
  assert (sort_rules (rules (collected_rules RunAndWriteFile (with_schedule w s)))
          = sort_rules (rules (collected_rules RunAndWriteFile w))) as Heq.
  { unfold collected_rules. simpl. apply sort_rules_schedule.
    - by rewrite Hw, Hs.
    - intros k1 k2. rewrite !Hs. apply Hkey. }
  unfold RunGen. rewrite Heq. reflexivity.
Qed.

(** C6: the resolved-and-generated callback submits exactly one write task
    for a record whose item is a Target and nothing for any other record;
    so, whatever the order in which the pool runs the submitted tasks, every
    entry of the aggregator is the rule of the target of a reported record,
    filed under the toolchain of that target, and every reported target has
    its entry. *)
Theorem callback_submits_one_task_per_target
    (RunAndWriteFile : Target → string)
    (reported : list BuilderRecord) (order : list Task) :
  order ≡ₚ dispatch reported →
  (∀ record queue,
     ItemResolvedAndGeneratedCallback record queue =
       match item record with
       | ItemTarget target => queue ++ [WriteTask target]
       | _ => queue
       end) ∧
  (∀ tc l p,
     rules (run_workers RunAndWriteFile order {| rules := ∅ |}) !! tc = Some l →
     p ∈ l →
     ∃ record, record ∈ reported ∧ item record = ItemTarget p.1 ∧
               tc = toolchain p.1 ∧ p.2 = RunAndWriteFile p.1) ∧
  (∀ record target,
     record ∈ reported → item record = ItemTarget target →
     ∃ l, rules (run_workers RunAndWriteFile order {| rules := ∅ |})
            !! toolchain target = Some l ∧
          (target, RunAndWriteFile target) ∈ l).
Proof.
  intros Hperm. split; [|split].
  - intros record queue. unfold ItemResolvedAndGeneratedCallback.
    by destruct (item record).
  - intros tc l p Hl Hp. rewrite collected_lookup in Hl.
    assert (p ∈ entries_of RunAndWriteFile tc order) as Hin.
    { destruct (entries_of RunAndWriteFile tc order); [done|].
      by injection Hl as <-. }
    apply elem_of_entries_of in Hin as (Hin & Htc & Hrule).
    rewrite Hperm in Hin. apply elem_of_dispatch in Hin as (r & Hr & Hi).
    by exists r.
  - intros record target Hr Hi. rewrite collected_lookup.
    assert ((target, RunAndWriteFile target)
              ∈ entries_of RunAndWriteFile (toolchain target) order) as Hin.
    { apply elem_of_entries_of. simpl. split; [|done].
      rewrite Hperm. apply elem_of_dispatch. by exists record. }
    destruct (entries_of RunAndWriteFile (toolchain target) order) as [|e es].
    + by apply elem_of_nil in Hin.
    + by exists (e :: es).
Qed.

Lemma callback_submits_one_task_per_target_witness :
  ItemResolvedAndGeneratedCallback
    (mkBuilderRecord (ItemToolchain Examples.default_tc) Resolved)
    [WriteTask Examples.base] = [WriteTask Examples.base] ∧
  ItemResolvedAndGeneratedCallback
    (mkBuilderRecord (ItemTarget Examples.gen) Resolved)
    [WriteTask Examples.base] = [WriteTask Examples.base; WriteTask Examples.gen].
Proof.
  pose proof (callback_submits_one_task_per_target Examples.write_rule
    Examples.the_records (reverse (dispatch Examples.the_records))
    (reverse_Permutation _)) as (H & _ & _).
  split; apply H.
Defined.

(** C1: the finalization pass keeps every toolchain of the aggregator and
    leaves its pairs in ascending order of the labels of their targets,
    without adding or losing a pair; it makes no entry for a toolchain that
    has none. After the workers have run, whatever the order of their
    appends, every task has its pair in the sorted rules of the toolchain
    of its target, the sorted rules of a toolchain are exactly the pairs
    appended for it, and, as a label names a single target, two orders of
    the same appends leave the same sorted rules. *)
Theorem finalization_sorted_and_deterministic
    (RunAndWriteFile : Target → string) (order1 order2 : list Task) :
  order1 ≡ₚ order2 →
  (∀ k1 k2, k1 ∈ order1 → k2 ∈ order1 →
     label (task_target k1) = label (task_target k2) → k1 = k2) →
  (∀ (r : PerToolchainRules) tc (es : list TargetRulePair),
     r !! tc = Some es →
     ∃ l, sort_rules r !! tc = Some l ∧
          StronglySorted (λ a b, Label_lt (label b.1) (label a.1) = false) l ∧
          l ≡ₚ es) ∧
  (∀ (r : PerToolchainRules) tc,
     r !! tc = None → sort_rules r !! tc = None) ∧
  (∀ k,
     k ∈ order1 →
     ∃ l,
       sort_rules (rules (run_workers RunAndWriteFile order1 {| rules := ∅ |}))
         !! toolchain (task_target k) = Some l ∧
       (task_target k, RunAndWriteFile (task_target k)) ∈ l) ∧
  (∀ tc l,
     sort_rules (rules (run_workers RunAndWriteFile order1 {| rules := ∅ |}))
       !! tc = Some l →
     StronglySorted (λ a b, Label_lt (label b.1) (label a.1) = false) l ∧
     l ≡ₚ entries_of RunAndWriteFile tc order1) ∧
  sort_rules (rules (run_workers RunAndWriteFile order1 {| rules := ∅ |})) =
  sort_rules (rules (run_workers RunAndWriteFile order2 {| rules := ∅ |})).
Proof.
  intros Hperm Hkey.
  split; [|split; [|split; [|split; [|by apply sort_rules_schedule]]]].
  - intros r tc es Hes. exists (std_sort rule_less es). split; [|split].
    + unfold sort_rules. by rewrite lookup_fmap, Hes.
    + apply (Sorted_StronglySorted rule_le), std_sort_Sorted, rule_less_asym.
    + apply std_sort_Permutation.
  - intros r tc Hnone. unfold sort_rules. by rewrite lookup_fmap, Hnone.
  - intros [t] Hk. cbn [task_target]. unfold sort_rules.
    rewrite lookup_fmap, collected_lookup.
    assert ((t, RunAndWriteFile t)
              ∈ entries_of RunAndWriteFile (toolchain t) order1) as Hin.
    { by apply elem_of_entries_of. }
    destruct (entries_of RunAndWriteFile (toolchain t) order1) as [|e es].
    { by apply elem_of_nil in Hin. }
    exists (std_sort rule_less (e :: es)). split; [done|].
    by rewrite std_sort_Permutation.
  - intros tc l. unfold sort_rules. rewrite lookup_fmap.
    destruct (rules _ !! tc) as [es|] eqn:Hes; simpl; [|done].
    intros [= <-]. split.
    + apply (Sorted_StronglySorted rule_le), std_sort_Sorted, rule_less_asym.
    + rewrite std_sort_Permutation. rewrite collected_lookup in Hes.
      destruct (entries_of RunAndWriteFile tc order1); [done|].
      by injection Hes as <-.
Qed.

Lemma finalization_sorted_and_deterministic_witness :
  sort_rules (rules (run_workers Examples.write_rule
    [WriteTask Examples.base; WriteTask Examples.app; WriteTask Examples.gen]
    {| rules := ∅ |})) =
  sort_rules (rules (run_workers Examples.write_rule
    [WriteTask Examples.gen; WriteTask Examples.base; WriteTask Examples.app]
    {| rules := ∅ |})).
Proof.
  apply (finalization_sorted_and_deterministic Examples.write_rule
    [WriteTask Examples.base; WriteTask Examples.app; WriteTask Examples.gen]
    [WriteTask Examples.gen; WriteTask Examples.base; WriteTask Examples.app]).
  - apply (Permutation_app_comm [_; _] [_]).
  - intros k1 k2 H1 H2. set_unfold.
    destruct H1 as [-> | [-> | [-> | []]]];
      destruct H2 as [-> | [-> | [-> | []]]];
      simpl; first [done | intros [=]].
Defined.

(** ** The producer of a generated input *)

Lemma scan_outputs_spec (o : OutputFile) (outputs : list OutputFile) :
  scan_outputs o outputs = true ↔ o ∈ outputs.
Proof.
  induction outputs as [|cur outputs IH]; simpl.
  - split; [done|]. by intros ?%elem_of_nil.
  - rewrite elem_of_cons. destruct (String.eqb cur o) eqn:E.
    + apply String.eqb_eq in E. subst. split; [by left|done].
    + apply String.eqb_neq in E. rewrite IH.
      split; [by right|]. by intros [->|?].
Qed.

Lemma scan_outputs_false (o : OutputFile) (outputs : list OutputFile) :
  scan_outputs o outputs = false ↔ o ∉ outputs.
Proof.
  rewrite <- scan_outputs_spec. by destruct (scan_outputs o outputs).
Qed.

(** The scan returns the first target, in the order of the vector, whose
    outputs contain the file. *)
Definition first_producer (o : OutputFile) (targets : list Target)
    (g : Target) : Prop :=
  ∃ before after,
    targets = before ++ g :: after ∧ o ∈ computed_outputs g ∧
    Forall (λ t, o ∉ computed_outputs t) before.

Lemma scan_targets_Some (o : OutputFile) (targets : list Target) (g : Target) :
  scan_targets o targets = Some g ↔ first_producer o targets g.
Proof.
  unfold first_producer. induction targets as [|t targets IH]; simpl.
  - split; [done|]. intros (before & after & H & _). by destruct before.
  - destruct (scan_outputs o (computed_outputs t)) eqn:E.
    + apply scan_outputs_spec in E. split.
      * intros [= <-]. by exists [], targets.
      * intros ([|t' before] & after & H & Hg & Hb); simplify_eq/=; [done|].
        by apply Forall_cons in Hb as [? _].
    + apply scan_outputs_false in E. rewrite IH. split.
      * intros (before & after & -> & Hg & Hb).
        exists (t :: before), after. by repeat split; [|constructor].
      * intros ([|t' before] & after & H & Hg & Hb); simplify_eq/=; [done|].
        apply Forall_cons in Hb as [_ Hb]. by exists before, after.
Qed.

Lemma scan_targets_None (o : OutputFile) (targets : list Target) :
  scan_targets o targets = None ↔
  Forall (λ t, o ∉ computed_outputs t) targets.
Proof.
  induction targets as [|t targets IH]; simpl.
  - split; [constructor|done].
  - rewrite Forall_cons, <- IH, <- scan_outputs_false.
    destruct (scan_outputs o (computed_outputs t)).
    + split; [done|]. by intros [? _].
    + split; [done|]. by intros [_ ?].
Qed.

Lemma any_non_default_spec (d : Label) (targets : list Target) :
  any_non_default d targets = true ↔
  ∃ t, t ∈ targets ∧ toolchain_label (settings t) ≠ d.
Proof.
  induction targets as [|t targets IH]; simpl.
  - split; [done|]. by intros (t & ?%elem_of_nil & _).
  - unfold Label_ne. case_bool_decide as Hne.
    + split; [|done]. intros _. exists t. split; [left|done].
    + rewrite IH. split.
      * intros (t' & Hin & Ht'). exists t'. split; [by right|done].
      * intros (t' & Hin & Ht'). apply elem_of_cons in Hin as [->|Hin]; [done|].
        by exists t'.
Qed.

Section ValidatorFacts.
Variable OutputFile_of : BuildSettings → SourceFile → OutputFile.
Variable GetUserVisibleName : Label → bool → string.

(** The [OutputFile] that the scan looks for: the one of the file under the
    build settings of the first resolved target. *)
Definition corresponding_output (b : Builder) (file : SourceFile)
    : option OutputFile :=
  (λ first, OutputFile_of (build_settings (settings first)) file) <$>
    head (GetAllResolvedTargets b).

Lemma FindTarget_Some (b : Builder) (file : SourceFile) (g : Target) :
  FindTargetThatGeneratesFile OutputFile_of b file = Some g ↔
  ∃ o, corresponding_output b file = Some o ∧
       first_producer o (GetAllResolvedTargets b) g.
Proof.
  unfold FindTargetThatGeneratesFile, corresponding_output.
  destruct (GetAllResolvedTargets b) as [|first targets].
  - split; [done|]. by intros (o & ? & _).
  - set (o := OutputFile_of _ file).
    change (scan_targets o (first :: targets) = Some g ↔
            ∃ o', Some o = Some o' ∧ first_producer o' (first :: targets) g).
    rewrite scan_targets_Some. split; [eauto|]. by intros (o' & [= <-] & H).
Qed.

Lemma FindTarget_None (b : Builder) (file : SourceFile) :
  FindTargetThatGeneratesFile OutputFile_of b file = None ↔
  ∀ o, corresponding_output b file = Some o →
       Forall (λ t, o ∉ computed_outputs t) (GetAllResolvedTargets b).
Proof.
  unfold FindTargetThatGeneratesFile, corresponding_output.
  destruct (GetAllResolvedTargets b) as [|first targets].
  - split; [|done]. intros _ o. done.
  - set (o := OutputFile_of _ file).
    change (scan_targets o (first :: targets) = None ↔
            ∀ o', Some o = Some o' →
                  Forall (λ t, o' ∉ computed_outputs t) (first :: targets)).
    rewrite scan_targets_None. split; [by intros H o' [= <-]|eauto].
Qed.

Lemma show_toolchains_spec (d : Label) (targets : list Target)
    (generator : option Target) :
  show_toolchains d targets generator = true ↔
  ∃ t, t ∈ targets ++ option_list generator ∧
       toolchain_label (settings t) ≠ d.
Proof.
  unfold show_toolchains. destruct generator as [g|]; simpl.
  - unfold Label_ne. case_bool_decide as Hne.
    + split; [|done]. intros _. exists g. split; [|done].
      apply elem_of_app. right. by left.
    + rewrite any_non_default_spec. split.
      * intros (t & Hin & Ht). exists t. split; [|done].
        apply elem_of_app. by left.
      * intros (t & Hin & Ht). exists t. split; [|done].
        apply elem_of_app in Hin as [Hin|Hin]; [done|].
        apply list_elem_of_singleton in Hin as ->. by destruct Ht.
  - rewrite app_nil_r. apply any_non_default_spec.
Qed.

End ValidatorFacts.

(** C2: the producer named in the diagnostic of a group is the first
    resolved target, in the order of [GetAllResolvedTargets], whose
    computed outputs contain the [OutputFile] of the file; when the computed
    outputs of no resolved target contain it, the diagnostic ends with the
    statement that no targets in the build generate that file. *)
Theorem producer_found_by_scan
    (OutputFile_of : BuildSettings → SourceFile → OutputFile)
    (GetUserVisibleName : Label → bool → string)
    (b : Builder) (file : SourceFile) (consumers : list Target) :
  consumers ≠ [] →
  ∃ e,
    PrintInvalidGeneratedInput OutputFile_of GetUserVisibleName b file
      consumers = Some e ∧
    (∀ g,
       FindTargetThatGeneratesFile OutputFile_of b file = Some g ↔
       ∃ o, corresponding_output OutputFile_of b file = Some o ∧
            first_producer o (GetAllResolvedTargets b) g) ∧
    (∀ g,
       FindTargetThatGeneratesFile OutputFile_of b file = Some g →
       ∃ text target_str show,
         err_help e =
           text +:+
           ("but this file was not generated by any dependencies of the "
              +:+ target_str +:+ ". The target" +:+ nl +:+
              "that generates the file is:" +:+ nl +:+ "  ") +:+
           GetUserVisibleName (label g) show) ∧
    ((∀ o, corresponding_output OutputFile_of b file = Some o →
           Forall (λ t, o ∉ computed_outputs t) (GetAllResolvedTargets b)) →
     ∃ text,
       err_help e = text +:+ "but no targets in the build generate that file.").
Proof.
  intros Hne. destruct consumers as [|first rest]; [done|].
  eexists. split; [reflexivity|]. split; [|split].
  - intros g. apply FindTarget_Some.
  - intros g Hg. cbn [err_help]. rewrite Hg. unfold invalid_input_text.
    by eexists _, _, _.
  - intros Hnone. apply FindTarget_None in Hnone.
    cbn [err_help]. rewrite Hnone. unfold invalid_input_text. by eexists.
Qed.

Lemma producer_found_by_scan_witness :
  ∃ e,
    PrintInvalidGeneratedInput Examples.output_file_of
      Examples.user_visible_name Examples.the_builder "//out/Debug/gen/base/b.h"
      [Examples.app] = Some e ∧
    FindTargetThatGeneratesFile Examples.output_file_of Examples.the_builder
      "//out/Debug/gen/base/b.h" = Some Examples.gen.
Proof.
  destruct (producer_found_by_scan Examples.output_file_of
    Examples.user_visible_name Examples.the_builder "//out/Debug/gen/base/b.h"
    [Examples.app]) as (e & He & _); [done|].
  exists e. split; [exact He|reflexivity].
Defined.

Lemma scan_targets_steps_spec (o : OutputFile) (targets : list Target) :
  (scan_targets_steps o targets).1 = scan_targets o targets ∧
  ∀ first rest, targets = first :: rest →
    ∃ scanned, (scan_targets_steps o targets).2 = ScanTarget first :: scanned.
Proof.
  split.
  - induction targets as [|t targets IH]; [done|]. simpl.
    destruct (scan_outputs o (computed_outputs t)); [done|].
    by destruct (scan_targets_steps o targets).
  - intros first rest ->. simpl.
    destruct (scan_outputs o (computed_outputs first)); [by eexists|].
    destruct (scan_targets_steps o rest). by eexists.
Qed.

(** C10: [FindTargetThatGeneratesFile] is defined on every Builder: it
    never reads [targets[0]] of an empty vector, and what it returns step
    by step is what it returns. When the Builder has no resolved target it
    returns null, for every file and whatever the constructor of
    [OutputFile], and it has taken no step: no [OutputFile] was constructed
    and no target was visited. With a resolved target it does construct the
    [OutputFile], from the build settings of the first one, and then visits
    that target first: the empty case is the only one that takes no step. *)
Theorem no_resolved_target_no_producer
    (OutputFile_of : BuildSettings → SourceFile → OutputFile)
    (b : Builder) (file : SourceFile) :
  ∃ steps,
    FindTargetThatGeneratesFile_steps OutputFile_of b file =
      Some (FindTargetThatGeneratesFile OutputFile_of b file, steps) ∧
    (GetAllResolvedTargets b = [] →
     FindTargetThatGeneratesFile OutputFile_of b file = None ∧
     corresponding_output OutputFile_of b file = None ∧
     steps = []) ∧
    (∀ first rest,
       GetAllResolvedTargets b = first :: rest →
       ∃ scanned,
         steps =
           ConstructOutputFile (build_settings (settings first)) file ::
           ScanTarget first :: scanned).
Proof.
  unfold FindTargetThatGeneratesFile_steps, FindTargetThatGeneratesFile,
    corresponding_output.
  destruct (GetAllResolvedTargets b) as [|first rest] eqn:E.
  - exists []. by rewrite bool_decide_eq_true_2.
  - rewrite bool_decide_eq_false_2 by done. cbn [lookup list_lookup mbind
                                                 option_bind].
    destruct (scan_targets_steps_spec
                (OutputFile_of (build_settings (settings first)) file)
                (first :: rest)) as [Hres Hsteps].
    destruct (Hsteps first rest eq_refl) as [scanned Hscanned].
    destruct (scan_targets_steps _ (first :: rest)) as [found steps].
    cbn [fst snd] in Hres, Hscanned. subst found steps.
    eexists. split; [reflexivity|]. split; [done|].
    intros first' rest' [= <- <-]. by exists scanned.
Qed.

Lemma no_resolved_target_no_producer_witness :
  FindTargetThatGeneratesFile_steps Examples.output_file_of
    (mkBuilder [mkBuilderRecord (ItemTarget Examples.gen) Loading;
                mkBuilderRecord (ItemConfig Examples.default_tc) Resolved])
    "//out/Debug/gen/base/b.h" = Some (None, []).
Proof.
  destruct (no_resolved_target_no_producer Examples.output_file_of
    (mkBuilder [mkBuilderRecord (ItemTarget Examples.gen) Loading;
                mkBuilderRecord (ItemConfig Examples.default_tc) Resolved])
    "//out/Debug/gen/base/b.h") as (steps & Hsteps & Hempty & _).
  destruct (Hempty eq_refl) as (Hnone & _ & ->).
  rewrite Hsteps, Hnone. reflexivity.
Defined.

Lemma string_app_assoc (s1 s2 s3 : string) :
  (s1 +:+ s2) +:+ s3 = s1 +:+ (s2 +:+ s3).
Proof.
  induction s1 as [|a s1 IH]; [reflexivity|].
  change (String a ((s1 +:+ s2) +:+ s3) = String a (s1 +:+ (s2 +:+ s3))).
  by rewrite IH.
Qed.

Lemma string_app_empty_r (s : string) : s +:+ "" = s.
Proof.
  induction s as [|a s IH]; [reflexivity|].
  change (String a (s +:+ "") = String a s). by rewrite IH.
Qed.

Lemma concat_cons (s : string) (l : list string) :
  String.concat "" (s :: l) = s +:+ String.concat "" l.
Proof.
  destruct l as [|s' l]; [|reflexivity].
  change (s = s +:+ ""). by rewrite string_app_empty_r.
Qed.

(** The loop of lines 138-139 appends one line for each consumer, in the
    order of the vector. *)
Lemma target_lines_concat (GetUserVisibleName : Label → bool → string)
    (show : bool) (targets : list Target) :
  target_lines GetUserVisibleName show targets =
    String.concat ""
      ((λ t, "  " +:+ GetUserVisibleName (label t) show +:+ nl) <$> targets).
Proof.
  unfold target_lines.
  assert (∀ err,
    foldl (λ err target,
             err +:+ ("  " +:+ GetUserVisibleName (label target) show +:+ nl))
          err targets =
    err +:+ String.concat ""
      ((λ t, "  " +:+ GetUserVisibleName (label t) show +:+ nl) <$> targets))
    as H; [|exact (H "")].
  induction targets as [|t targets IH]; intros err.
  - change (err = err +:+ ""). by rewrite string_app_empty_r.
  - rewrite fmap_cons, concat_cons. cbn [foldl]. rewrite IH.
    by rewrite string_app_assoc.
Qed.

(** C4: every label of a diagnostic is printed by
    [GetUserVisibleName(show_toolchains)] with the same flag: the text is
    the file, one line for each consumer in the order of the group with the
    label printed with the flag, and the closing sentence, which names the
    producer, if there is one, printed with the flag too. The flag is set
    exactly when a consumer, or the producer, has a toolchain label other
    than the default toolchain label (the one that the settings of the
    first consumer name). So the diagnostic is the one that printing every
    label with its toolchain gives when some target involved is not of the
    default toolchain, and the one that printing every label without gives
    when all are. *)
Theorem toolchains_shown_iff_non_default
    (OutputFile_of : BuildSettings → SourceFile → OutputFile)
    (GetUserVisibleName : Label → bool → string)
    (b : Builder) (file : SourceFile) (first : Target) (rest : list Target) :
  ∃ show message target_str,
    PrintInvalidGeneratedInput OutputFile_of GetUserVisibleName b file
      (first :: rest) =
    Some {| err_message := message;
            err_help :=
              "The file:" +:+ nl +:+
              "  " +:+ file +:+ nl +:+
              "is listed as an input or source for the " +:+ target_str
                +:+ ":" +:+ nl +:+
              String.concat ""
                ((λ consumer,
                    "  " +:+ GetUserVisibleName (label consumer) show +:+ nl)
                   <$> first :: rest) +:+
              match FindTargetThatGeneratesFile OutputFile_of b file with
              | Some producer =>
                  "but this file was not generated by any dependencies of the "
                  +:+ target_str +:+ ". The target" +:+ nl +:+
                  "that generates the file is:" +:+ nl +:+ "  " +:+
                  GetUserVisibleName (label producer) show
              | None => "but no targets in the build generate that file."
              end |} ∧
    (show = true ↔
     ∃ t, t ∈ (first :: rest) ++
              option_list (FindTargetThatGeneratesFile OutputFile_of b file) ∧
          toolchain_label (settings t) ≠
          default_toolchain_label (settings first)) ∧
    PrintInvalidGeneratedInput OutputFile_of GetUserVisibleName b file
      (first :: rest) =
    PrintInvalidGeneratedInput OutputFile_of
      (λ l _, GetUserVisibleName l show) b file (first :: rest).
Proof.
  eexists (show_toolchains (default_toolchain_label (settings first))
             (first :: rest) (FindTargetThatGeneratesFile OutputFile_of b file)),
    _, (if decide (1 < length (first :: rest)) then "targets" else "target").
  split; [|split; [apply show_toolchains_spec|]].
  - unfold PrintInvalidGeneratedInput. do 2 f_equal.
    unfold invalid_input_text. rewrite target_lines_concat.
    destruct (FindTargetThatGeneratesFile OutputFile_of b file);
      rewrite ?string_app_assoc; reflexivity.
  - unfold PrintInvalidGeneratedInput, invalid_input_text, target_lines.
    by destruct (show_toolchains _ _ _).
Qed.

(** ** The groups of the validator *)

Lemma SourceFile_lt_irrefl (a : SourceFile) : SourceFile_lt a a = false.
Proof.
  unfold SourceFile_lt, String.ltb. by rewrite StringOrder.compare_refl.
Qed.

Lemma SourceFile_lt_trans (a b c : SourceFile) :
  SourceFile_lt a b = true → SourceFile_lt b c = true →
  SourceFile_lt a c = true.
Proof.
  unfold SourceFile_lt, String.ltb.
  destruct (String.compare a b) eqn:E1; try done.
  destruct (String.compare b c) eqn:E2; try done.
  by rewrite (StringOrder.compare_lt_trans _ _ _ E1 E2).
Qed.

Lemma SourceFile_lt_asym (a b : SourceFile) :
  SourceFile_lt a b = true → SourceFile_lt b a = false.
Proof.
  intros Hab. destruct (SourceFile_lt b a) eqn:Hba; [|done].
  pose proof (SourceFile_lt_trans _ _ _ Hab Hba) as H.
  by rewrite SourceFile_lt_irrefl in H.
Qed.

Lemma SourceFile_lt_total (a b : SourceFile) :
  SourceFile_lt a b = false → SourceFile_lt b a = false → a = b.
Proof.
  unfold SourceFile_lt, String.ltb.
  destruct (String.compare a b) eqn:E; try done.
  - intros _ _. by apply StringOrder.compare_eq.
  - apply StringOrder.compare_gt_lt in E. by rewrite E.
Qed.

(** The order of the entries of a multimap: keys never decrease. *)
Definition entry_le : relation (SourceFile * Target) :=
  λ a b, SourceFile_lt b.1 a.1 = false.

Global Instance entry_le_trans : Transitive entry_le.
Proof.
  intros a b c. unfold entry_le. intros Hab Hbc.
  destruct (SourceFile_lt c.1 a.1) eqn:Hca; [|done].
  destruct (SourceFile_lt a.1 b.1) eqn:E.
  - by rewrite (SourceFile_lt_trans _ _ _ Hca E) in Hbc.
  - rewrite (SourceFile_lt_total _ _ Hab E) in Hbc. congruence.
Qed.

Lemma mm_ordered_strongly (m : multimap) :
  mm_ordered m ↔ StronglySorted entry_le m.
Proof.
  change (Sorted entry_le m ↔ StronglySorted entry_le m).
  split; [apply Sorted_StronglySorted, _|apply StronglySorted_Sorted].
Qed.

(** The entries from a position up to [upper_bound] of a key. *)
Fixpoint range_prefix (m : multimap) (key : SourceFile) : multimap :=
  match m with
  | [] => []
  | e :: m' =>
      if SourceFile_lt key e.1 then [] else e :: range_prefix m' key
  end.

(** The groups of a multimap: the runs of entries up to the upper bound of
    the key they start with, each with its key and the targets of its
    entries. *)
Fixpoint mm_groups_from (key : SourceFile) (targets : list Target)
    (rest : multimap) : list (SourceFile * list Target) :=
  match rest with
  | [] => [(key, targets)]
  | e :: rest' =>
      if SourceFile_lt key e.1
      then (key, targets) :: mm_groups_from e.1 [e.2] rest'
      else mm_groups_from key (targets ++ [e.2]) rest'
  end.

Definition mm_groups (m : multimap) : list (SourceFile * list Target) :=
  match m with
  | [] => []
  | e :: rest => mm_groups_from e.1 [e.2] rest
  end.

(** The groups that [CheckForInvalidGeneratedInputs] hands to
    [PrintInvalidGeneratedInput], in the order of the calls. *)
Definition processed_groups (unknown_inputs : multimap)
    : list (SourceFile * list Target) :=
  (check_loop (length unknown_inputs) unknown_inputs unknown_inputs 0%Z []).2.

Lemma range_prefix_upper_bound (m : multimap) (key : SourceFile) :
  range_prefix m key ++ upper_bound m key = m.
Proof.
  induction m as [|e m IH]; simpl; [done|].
  destruct (SourceFile_lt key e.1); simpl; [done|]. by rewrite IH.
Qed.

Lemma upper_bound_length (m : multimap) (key : SourceFile) :
  (length (upper_bound m key) ≤ length m)%nat.
Proof.
  induction m as [|e m IH]; simpl; [done|].
  destruct (SourceFile_lt key e.1); simpl; lia.
Qed.

Lemma upper_bound_skip (before rest : multimap) (key : SourceFile) :
  Forall (λ e, SourceFile_lt key e.1 = false) before →
  upper_bound (before ++ rest) key = upper_bound rest key.
Proof.
  induction 1 as [|e before He _ IH]; simpl; [done|]. by rewrite He.
Qed.

Lemma collect_range_spec (same after : multimap) (targets : list Target) :
  collect_range (same ++ after) after targets = (targets ++ same.*2, after).
Proof.
  revert targets. induction same as [|e same IH]; intros targets; simpl.
  - rewrite app_nil_r. destruct after as [|e after]; simpl; [done|].
    by rewrite decide_True.
  - rewrite decide_False by (rewrite length_app; lia).
    rewrite IH. by rewrite <- List.app_assoc.
Qed.

Lemma mm_groups_from_spec (key : SourceFile) (targets : list Target)
    (rest : multimap) :
  mm_groups_from key targets rest =
    (key, targets ++ (range_prefix rest key).*2)
      :: mm_groups (upper_bound rest key).
Proof.
  revert targets. induction rest as [|e rest IH]; intros targets; simpl.
  - by rewrite app_nil_r.
  - destruct (SourceFile_lt key e.1); simpl.
    + by rewrite app_nil_r.
    + rewrite IH. by rewrite <- List.app_assoc.
Qed.

Lemma mm_groups_cons (e : SourceFile * Target) (rest : multimap) :
  mm_groups (e :: rest) =
    (e.1, e.2 :: (range_prefix rest e.1).*2)
      :: mm_groups (upper_bound rest e.1).
Proof. unfold mm_groups at 1. by rewrite mm_groups_from_spec. Qed.

(** The loop visits the groups of the multimap, one turn for each. *)
Lemma check_loop_spec (fuel : nat) (before cur : multimap) (n : Z)
    (groups : list (SourceFile * list Target)) :
  mm_ordered (before ++ cur) → (length cur ≤ fuel)%nat →
  check_loop fuel (before ++ cur) cur n groups =
    ((n + Z.of_nat (length (mm_groups cur)))%Z, groups ++ mm_groups cur).
Proof.
  revert before cur n groups.
  induction fuel as [|fuel IH]; intros before cur n groups Hord Hfuel.
  - destruct cur; simpl in *; [|lia]. by rewrite Z.add_0_r, app_nil_r.
  - destruct cur as [|[k v] rest].
    { simpl. by rewrite Z.add_0_r, app_nil_r. }
    cbn [check_loop].
    assert (upper_bound (before ++ (k, v) :: rest) k = upper_bound rest k)
      as ->.
    { rewrite (upper_bound_skip before).
      - simpl. by rewrite SourceFile_lt_irrefl.
      - apply mm_ordered_strongly, StronglySorted_app in Hord
          as (Hall & _ & _).
        apply Forall_forall. intros e He. apply (Hall e (k, v) He). by left. }
    pose proof (range_prefix_upper_bound rest k) as Hsplit.
    assert (collect_range ((k, v) :: rest) (upper_bound rest k) [] =
            (v :: (range_prefix rest k).*2, upper_bound rest k)) as ->.
    { pose proof (collect_range_spec ((k, v) :: range_prefix rest k)
        (upper_bound rest k) []) as Hc.
      change (((k, v) :: range_prefix rest k) ++ upper_bound rest k)
        with ((k, v) :: (range_prefix rest k ++ upper_bound rest k)) in Hc.
      rewrite Hsplit in Hc. exact Hc. }
    rewrite mm_groups_cons. cbn [fst snd].
    assert (before ++ (k, v) :: rest =
            (before ++ (k, v) :: range_prefix rest k) ++ upper_bound rest k)
      as Heq.
    { rewrite <- List.app_assoc. simpl. by rewrite Hsplit. }
    rewrite Heq. rewrite IH.
    + rewrite <- List.app_assoc. simpl. f_equal. lia.
    + by rewrite <- Heq.
    + pose proof (upper_bound_length rest k). simpl in Hfuel. lia.
Qed.

Lemma processed_groups_spec (m : multimap) :
  mm_ordered m → processed_groups m = mm_groups m.
Proof.
  intros Hord. unfold processed_groups.
  by rewrite (check_loop_spec (length m) [] m).
Qed.

Lemma SourceFile_lt_le_trans (a b c : SourceFile) :
  SourceFile_lt a b = true → SourceFile_lt c b = false →
  SourceFile_lt a c = true.
Proof.
  intros Hab Hcb. destruct (SourceFile_lt a c) eqn:Hac; [done|].
  destruct (SourceFile_lt c a) eqn:Hca.
  - by rewrite (SourceFile_lt_trans _ _ _ Hca Hab) in Hcb.
  - rewrite (SourceFile_lt_total _ _ Hac Hca) in Hab. congruence.
Qed.

Lemma filter_all {A} (P : A → Prop) `{∀ x, Decision (P x)} (l : list A) :
  Forall P l → filter P l = l.
Proof.
  induction 1 as [|x l Hx _ IH]; [done|].
  by rewrite filter_cons_True, IH.
Qed.

Lemma filter_none {A} (P : A → Prop) `{∀ x, Decision (P x)} (l : list A) :
  Forall (λ x, ¬ P x) l → filter P l = [].
Proof.
  induction 1 as [|x l Hx _ IH]; [done|]. by rewrite filter_cons_False.
Qed.

Lemma StronglySorted_filter {A} (R : relation A) (P : A → Prop)
    `{∀ x, Decision (P x)} (l : list A) :
  StronglySorted R l → StronglySorted R (filter P l).
Proof.
  induction 1 as [|x l _ IH Hx]; [constructor|].
  rewrite filter_cons. destruct (decide (P x)); [|done].
  constructor; [done|]. apply Forall_forall. intros y Hy%list_elem_of_filter.
  rewrite Forall_forall in Hx. apply Hx. tauto.
Qed.

(** Keys in strictly ascending order. *)
Definition strictly_ascending (keys : list SourceFile) : Prop :=
  StronglySorted (λ a b, SourceFile_lt a b = true) keys.


(** The entries of one file. *)
Definition has_key (k : SourceFile) (e : SourceFile * Target) : Prop :=
  e.1 = k.

Global Instance has_key_dec (k : SourceFile) (e : SourceFile * Target) :
  Decision (has_key k e).
Proof. unfold has_key. apply _. Defined.

(** In an ordered multimap, behind an entry of key [k], the range up to the
    upper bound of [k] holds the entries of key [k] and the rest holds the
    entries of greater keys. *)
Lemma range_of_ordered (k : SourceFile) (rest : multimap) :
  Forall (λ e, SourceFile_lt e.1 k = false) rest →
  StronglySorted entry_le rest →
  range_prefix rest k = filter (has_key k) rest ∧
  upper_bound rest k = filter (λ e, ¬ has_key k e) rest ∧
  Forall (λ e, SourceFile_lt k e.1 = true) (upper_bound rest k).
Proof.
  intros Hge Hord. induction Hord as [|e rest Hord IH He].
  { by repeat split. }
  apply Forall_cons in Hge as [Hek Hge]. specialize (IH Hge).
  destruct IH as (IH1 & IH2 & IH3). cbn [range_prefix upper_bound].
  destruct (SourceFile_lt k e.1) eqn:Hke.
  - assert (Forall (λ e', SourceFile_lt k e'.1 = true) (e :: rest)) as Hall.
    { constructor; [done|]. eapply Forall_impl; [exact He|].
      intros e' Hle. by apply (SourceFile_lt_le_trans k e.1 e'.1). }
    assert (Forall (λ e', ¬ has_key k e') (e :: rest)) as Hne.
    { eapply Forall_impl; [exact Hall|]. intros e' Hlt Heq.
      unfold has_key in Heq. simpl in *.
      rewrite Heq in Hlt. by rewrite SourceFile_lt_irrefl in Hlt. }
    repeat split; [|by rewrite (filter_all _ _ Hne)|done].
    by rewrite (filter_none _ _ Hne).
  - pose proof (SourceFile_lt_total _ _ Hke Hek) as Heq.
    assert (has_key k e) as Hkey by done.
    rewrite (filter_cons_True _ _ _ Hkey).
    rewrite (filter_cons_False (λ e, ¬ has_key k e))
      by (intros Hne; by apply Hne).
    by rewrite IH1.
Qed.

Lemma mm_groups_ordered (n : nat) (m : multimap) :
  (length m ≤ n)%nat → StronglySorted entry_le m →
  Forall (λ g, g.2 = (filter (has_key g.1) m).*2 ∧ g.2 ≠ [])
    (mm_groups m) ∧
  strictly_ascending (mm_groups m).*1 ∧
  (∀ k, k ∈ (mm_groups m).*1 ↔ k ∈ m.*1).
Proof.
  revert m. induction n as [|n IH]; intros m Hlen Hord.
  { destruct m; simpl in *; [|lia]. repeat split; try constructor; done. }
  destruct m as [|[k v] rest].
  { repeat split; try constructor; done. }
  rewrite mm_groups_cons. cbn [fst snd].
  apply StronglySorted_inv in Hord as [Hord Hk].
  destruct (range_of_ordered k rest) as (Hrange & Hub & Hgt); [|done|].
  { eapply Forall_impl; [exact Hk|]. by intros e He. }
  assert (length (upper_bound rest k) ≤ n)%nat as Hlen'.
  { pose proof (upper_bound_length rest k). simpl in Hlen. lia. }
  assert (StronglySorted entry_le (upper_bound rest k)) as Hord'.
  { rewrite Hub. by apply StronglySorted_filter. }
  destruct (IH _ Hlen' Hord') as (IHa & IHb & IHc).
  assert (∀ k', k' ∈ (mm_groups (upper_bound rest k)).*1 →
                SourceFile_lt k k' = true) as Hkeys.
  { intros k' Hk'. apply IHc in Hk'.
    apply list_elem_of_fmap in Hk' as (e & -> & He).
    rewrite Forall_forall in Hgt. by apply Hgt. }
  split; [|split].
  - constructor.
    + cbn [fst snd]. split; [|done].
      rewrite (filter_cons_True (has_key k)) by reflexivity.
      rewrite fmap_cons. by rewrite Hrange.
    + rewrite Forall_forall in IHa. apply Forall_forall. intros g Hg.
      destruct (IHa g Hg) as [Hts Hne]. split; [|done].
      assert (g.1 ≠ k) as Hgk.
      { intros Heq. assert (SourceFile_lt k g.1 = true) as H.
        { apply Hkeys, list_elem_of_fmap. eauto. }
        rewrite Heq in H. by rewrite SourceFile_lt_irrefl in H. }
      rewrite (filter_cons_False (has_key g.1))
        by (unfold has_key; simpl; congruence).
      rewrite Hts, Hub. f_equal.
      apply list_filter_filter_l.
      intros e He. unfold has_key in *. congruence.
  - simpl. constructor; [done|]. apply Forall_forall. intros k'. apply Hkeys.
  - intros k'. simpl. rewrite !elem_of_cons, IHc, Hub.
    rewrite !list_elem_of_fmap. split.
    + intros [->|(e & -> & He%list_elem_of_filter)]; [by left|].
      right. exists e. tauto.
    + intros [->|(e & -> & He)]; [by left|].
      destruct (decide (has_key k e)) as [Hek|Hek]; [by left|].
      right. exists e. split; [done|]. by apply list_elem_of_filter.
Qed.

(** *** Insertions *)

Lemma mm_insert_Permutation (e : SourceFile * Target) (m : multimap) :
  mm_insert e m ≡ₚ e :: m.
Proof.
  induction m as [|e' m IH]; simpl; [done|].
  destruct (SourceFile_lt e.1 e'.1); [done|].
  rewrite IH. apply Permutation_swap.
Qed.

Lemma mm_insert_ordered (e : SourceFile * Target) (m : multimap) :
  mm_ordered m → mm_ordered (mm_insert e m).
Proof.
  unfold mm_ordered. induction 1 as [|e' m Hm IH He']; simpl.
  - repeat constructor.
  - destruct (SourceFile_lt e.1 e'.1) eqn:E.
    + constructor; [by constructor|]. constructor.
      by apply SourceFile_lt_asym.
    + constructor; [done|].
      destruct He' as [|e'' m He'']; simpl.
      * by constructor.
      * destruct (SourceFile_lt e.1 e''.1); by constructor.
Qed.

Lemma mm_of_insertions_snoc (log : list (SourceFile * Target))
    (e : SourceFile * Target) :
  mm_of_insertions (log ++ [e]) = mm_insert e (mm_of_insertions log).
Proof. unfold mm_of_insertions. by rewrite foldl_app. Qed.

Lemma mm_of_insertions_ordered (log : list (SourceFile * Target)) :
  mm_ordered (mm_of_insertions log).
Proof.
  induction log as [|e log IH] using rev_ind.
  - constructor.
  - rewrite mm_of_insertions_snoc. by apply mm_insert_ordered.
Qed.

Lemma mm_of_insertions_Permutation (log : list (SourceFile * Target)) :
  mm_of_insertions log ≡ₚ log.
Proof.
  induction log as [|e log IH] using rev_ind; [done|].
  rewrite mm_of_insertions_snoc, mm_insert_Permutation, IH.
  by rewrite Permutation_app_comm.
Qed.

(** An insertion goes behind the entries of its own key. *)
Lemma mm_insert_filter (k : SourceFile) (e : SourceFile * Target)
    (m : multimap) :
  StronglySorted entry_le m →
  filter (has_key k) (mm_insert e m) =
  filter (has_key k) m ++ filter (has_key k) [e].
Proof.
  induction 1 as [|e' m Hm IH He']; [done|].
  change (mm_insert e (e' :: m))
    with (if SourceFile_lt e.1 e'.1 then e :: e' :: m
          else e' :: mm_insert e m).
  destruct (SourceFile_lt e.1 e'.1) eqn:E.
  - rewrite (filter_cons _ e (e' :: m)), (filter_cons _ e []), filter_nil.
    destruct (decide (has_key k e)) as [Hk|Hk]; [|by rewrite app_nil_r].
    assert (Forall (λ e'', SourceFile_lt e.1 e''.1 = true) (e' :: m)) as Hall.
    { constructor; [done|]. eapply Forall_impl; [exact He'|].
      intros e'' Hle. by apply (SourceFile_lt_le_trans e.1 e'.1 e''.1). }
    assert (Forall (λ e'', ¬ has_key k e'') (e' :: m)) as Hnone.
    { eapply Forall_impl; [exact Hall|]. intros e'' Hlt Heq.
      unfold has_key in *. simpl in *.
      rewrite Heq, <- Hk in Hlt. by rewrite SourceFile_lt_irrefl in Hlt. }
    by rewrite !(filter_none _ _ Hnone).
  - rewrite !(filter_cons _ e').
    destruct (decide (has_key k e')); [|exact IH].
    rewrite <- app_comm_cons. f_equal. exact IH.
Qed.

Lemma mm_of_insertions_filter (k : SourceFile)
    (log : list (SourceFile * Target)) :
  filter (has_key k) (mm_of_insertions log) = filter (has_key k) log.
Proof.
  induction log as [|e log IH] using rev_ind; [done|].
  rewrite mm_of_insertions_snoc, mm_insert_filter, IH, filter_app; [done|].
  apply mm_ordered_strongly, mm_of_insertions_ordered.
Qed.

(** *** What the check prints *)

Section CheckFacts.
Variable OutputFile_of : BuildSettings → SourceFile → OutputFile.
Variable GetUserVisibleName : Label → bool → string.

Definition summary (groups : nat) : list Event :=
  if decide (1 < groups)
  then [OutputString (errors_found_line (Z.of_nat groups)) DECORATION_YELLOW]
  else [].

Lemma Check_spec (b : Builder) (m : multimap) :
  mm_ordered m → m ≠ [] →
  CheckForInvalidGeneratedInputs OutputFile_of GetUserVisibleName b m =
    (false,
     (mm_groups m ≫= print_group OutputFile_of GetUserVisibleName b)
     ++ [OutputString generated_inputs_help DECORATION_NONE]
     ++ summary (length (mm_groups m))).
Proof.
  intros Hord Hne. unfold CheckForInvalidGeneratedInputs.
  destruct m as [|e m]; [done|].
  rewrite (check_loop_spec _ [] (e :: m)) by done.
  rewrite Z.add_0_l, app_nil_l. unfold summary.
  destruct (decide (1 < Z.of_nat (length (mm_groups (e :: m))))%Z);
    destruct (decide (1 < length (mm_groups (e :: m)))); try lia.
  - by rewrite <- List.app_assoc.
  - done.
Qed.


End CheckFacts.




(** ** The order of the groups *)

(** The order that the specification describes: the files in the order in
    which they were first added, each with its consumers in the order of
    their insertion. *)
Fixpoint first_insertions (seen : list SourceFile)
    (log : list (SourceFile * Target)) : list SourceFile :=
  match log with
  | [] => []
  | e :: log' =>
      if decide (e.1 ∈ seen) then first_insertions seen log'
      else e.1 :: first_insertions (e.1 :: seen) log'
  end.

Definition groups_in_insertion_order (log : list (SourceFile * Target))
    : list (SourceFile * list Target) :=
  (λ f, (f, (filter (has_key f) log).*2)) <$> first_insertions [] log.

(** The header [b.h] is reported as unknown before the header [a.h]. *)
Definition b_then_a : list (SourceFile * Target) :=
  [("//out/Debug/gen/base/b.h", Examples.app);
   ("//out/Debug/gen/a.h", Examples.base)].

(** C5, as stated, fails: the file added second is processed first. *)
Lemma groups_not_in_insertion_order :
  processed_groups (mm_of_insertions b_then_a) =
    [("//out/Debug/gen/a.h", [Examples.base]);
     ("//out/Debug/gen/base/b.h", [Examples.app])] ∧
  groups_in_insertion_order b_then_a =
    [("//out/Debug/gen/base/b.h", [Examples.app]);
     ("//out/Debug/gen/a.h", [Examples.base])] ∧
  processed_groups (mm_of_insertions b_then_a) ≠
    groups_in_insertion_order b_then_a.
Proof.
  split; [|split].
  - vm_compute. reflexivity.
  - vm_compute. reflexivity.
  - vm_compute. intros [=].
Qed.

(** C5, amended: the validator groups the entries by [SourceFile]; the
    groups are processed in ascending order of the files, whatever the order
    in which the files were added, there is one group for each file that was
    added, and the consumers of a group are the targets added for its file,
    in the order of their insertion. *)
Theorem groups_ascending_by_file
    (OutputFile_of : BuildSettings → SourceFile → OutputFile)
    (GetUserVisibleName : Label → bool → string)
    (b : Builder) (log : list (SourceFile * Target)) :
  strictly_ascending (processed_groups (mm_of_insertions log)).*1 ∧
  (∀ f, f ∈ (processed_groups (mm_of_insertions log)).*1 ↔ f ∈ log.*1) ∧
  Forall (λ g, g.2 = (filter (has_key g.1) log).*2)
    (processed_groups (mm_of_insertions log)) ∧
  ∃ rest,
    (CheckForInvalidGeneratedInputs OutputFile_of GetUserVisibleName b
       (mm_of_insertions log)).2 =
    (processed_groups (mm_of_insertions log)
       ≫= print_group OutputFile_of GetUserVisibleName b) ++ rest.
Proof.
  pose proof (mm_of_insertions_ordered log) as Hord.
  rewrite processed_groups_spec by done.
  destruct (mm_groups_ordered (length (mm_of_insertions log))
    (mm_of_insertions log)) as (Hgroups & Hasc & Hkeys);
    [done|by apply mm_ordered_strongly|].
  split; [done|]. split; [|split].
  - intros f. rewrite Hkeys. by rewrite (mm_of_insertions_Permutation log).
  - eapply Forall_impl; [exact Hgroups|]. intros g [Hg _].
    by rewrite <- mm_of_insertions_filter.
  - destruct (mm_of_insertions log) as [|e m] eqn:E.
    + by exists [].
    + rewrite Check_spec by done. by eexists.
Qed.

(** ** Exit codes *)

Section ExitCodes.
Variable RunAndWriteFile : Target → string.
Variable OutputFile_of : BuildSettings → SourceFile → OutputFile.
Variable GetUserVisibleName : Label → bool → string.

(** The steps behind the resolution all succeed: the root ninja files and
    the runtime deps are written, no generated input is unknown, and the
    writers that the command line asks for succeed. *)
Definition writes_succeed (w : World) (r : PerToolchainRules) : Prop :=
  call_result w (NinjaWriter_RunAndWriteFiles r) = None ∧
  call_result w WriteRuntimeDepsFilesIfNecessary = None ∧
  GetUnknownGeneratedInputs w = [] ∧
  (HasSwitch w kSwitchIde = true →
   (RunIdeWriter w (GetSwitchValueASCII w kSwitchIde)).1 = None) ∧
  (HasSwitch w kSwitchExportCompileCommands = true →
   (RunCompileCommandsWriter w).1 = None) ∧
  (HasSwitch w kSwitchExportRustProject = true →
   (RunRustProjectWriter w).1 = None).

(** Every step of the command succeeds. *)
Definition gen_succeeds (w : World) (args : list string) : Prop :=
  ∃ dir,
    args = [dir] ∧
    DoSetup_result w dir true = true ∧
    Run_result w = true ∧
    writes_succeed w (sort_rules (rules (collected_rules RunAndWriteFile w))).

Lemma Check_true_iff (b : Builder) (m : multimap) :
  (CheckForInvalidGeneratedInputs OutputFile_of GetUserVisibleName b m).1
    = true ↔ m = [].
Proof.
  unfold CheckForInvalidGeneratedInputs. destruct m as [|e m]; [done|].
  destruct (check_loop _ _ _ _ _). by destruct (decide _).
Qed.

Lemma optional_writer_None (w : World) (switch : string)
    (writer : option Err * list Event) :
  (optional_writer w switch writer).1 = None ↔
  (HasSwitch w switch = true → writer.1 = None).
Proof.
  unfold optional_writer. destruct (HasSwitch w switch); simpl.
  - split; [by intros ? _|by intros H; apply H].
  - split; [by intros _ ?|done].
Qed.

Lemma write_and_check_code (w : World) (r : PerToolchainRules)
    (st : JumboStats) :
  ((write_and_check OutputFile_of GetUserVisibleName w r st).1 = 0%Z ∨
   (write_and_check OutputFile_of GetUserVisibleName w r st).1 = 1%Z) ∧
  ((write_and_check OutputFile_of GetUserVisibleName w r st).1 = 0%Z ↔
   writes_succeed w r).
Proof.
  unfold write_and_check, writes_succeed.
  rewrite <- !optional_writer_None.
  destruct (call_result w (NinjaWriter_RunAndWriteFiles r)); simpl.
  { split; [by right|]. split; [done|]. by intros (? & _). }
  destruct (call_result w WriteRuntimeDepsFilesIfNecessary); simpl.
  { split; [by right|]. split; [done|]. by intros (_ & ? & _). }
  pose proof (Check_true_iff (builder w) (GetUnknownGeneratedInputs w)) as Hc.
  destruct (CheckForInvalidGeneratedInputs _ _ _ _) as [ok printed].
  simpl in Hc. destruct ok; simpl.
  2: { split; [by right|]. split; [done|]. intros (_ & _ & Hm & _).
       by apply Hc in Hm. }
  destruct (optional_writer w kSwitchIde _) as [[e|] ev1]; simpl.
  { split; [by right|]. split; [done|]. by intros (_ & _ & _ & ? & _). }
  destruct (optional_writer w kSwitchExportCompileCommands _)
    as [[e|] ev2]; simpl.
  { split; [by right|]. split; [done|]. by intros (_ & _ & _ & _ & ? & _). }
  destruct (optional_writer w kSwitchExportRustProject _)
    as [[e|] ev3]; simpl.
  { split; [by right|]. split; [done|]. by intros (_ & _ & _ & _ & _ & ?). }
  split; [by left|]. split; [|done]. intros _.
  repeat split; try done. by apply Hc.
Qed.

Lemma RunGen_code (w : World) (args : list string) :
  ((RunGen RunAndWriteFile OutputFile_of GetUserVisibleName w args).1 = 0%Z ∨
   (RunGen RunAndWriteFile OutputFile_of GetUserVisibleName w args).1 = 1%Z) ∧
  ((RunGen RunAndWriteFile OutputFile_of GetUserVisibleName w args).1 = 0%Z ↔
   gen_succeeds w args).
Proof.
  unfold RunGen, gen_succeeds.
  destruct args as [|dir [|dir' args]]; simpl.
  - split; [by right|]. split; [done|]. by intros (? & ? & _).
  - destruct (DoSetup_result w dir true) eqn:Hsetup; simpl.
    2: { split; [by right|]. split; [done|].
         intros (? & [= <-] & ? & _). congruence. }
    destruct (Run_result w) eqn:Hrun; simpl.
    2: { split; [by right|]. split; [done|]. by intros (? & _ & _ & ? & _). }
    pose proof (write_and_check_code w
      (sort_rules (rules (collected_rules RunAndWriteFile w)))
      (jumbo_collect (HasSwitch w kSwitchJumboStats)
         (sort_rules (rules (collected_rules RunAndWriteFile w)))))
      as [Hcode Hiff].
    destruct (write_and_check _ _ _ _ _) as [code ev]. simpl in *.
    split; [done|]. rewrite Hiff. split.
    + intros H. by exists dir.
    + by intros (? & _ & _ & _ & H).
  - split; [by right|]. split; [done|]. by intros (? & ? & _).
Qed.

End ExitCodes.

(** C7: [RunGen] prints the usage error and returns 1 for every argument
    vector that does not hold exactly one argument; with one argument it
    goes on to [DoSetup] with that argument. The exit code is 0 when every
    step succeeds and 1 otherwise, whichever step fails: the set-up, the
    resolution and the work of the pool behind [setup->Run()], the writing of
    the ninja files and of the runtime deps, the check of the generated
    inputs, or a project writer. *)
Theorem RunGen_exit_codes
    (RunAndWriteFile : Target → string)
    (OutputFile_of : BuildSettings → SourceFile → OutputFile)
    (GetUserVisibleName : Label → bool → string)
    (w : World) (args : list string) :
  (length args ≠ 1 →
   RunGen RunAndWriteFile OutputFile_of GetUserVisibleName w args =
     (1%Z, [PrintToStdout usage_error])) ∧
  (∀ dir, args = [dir] →
     ∃ after,
       (RunGen RunAndWriteFile OutputFile_of GetUserVisibleName w args).2 =
       (if HasSwitch w (kArgs w) then [] else [Called Setup_set_gen_empty_args])
       ++ Called (Setup_DoSetup dir true) :: after) ∧
  ((RunGen RunAndWriteFile OutputFile_of GetUserVisibleName w args).1 = 0%Z ∨
   (RunGen RunAndWriteFile OutputFile_of GetUserVisibleName w args).1 = 1%Z) ∧
  ((RunGen RunAndWriteFile OutputFile_of GetUserVisibleName w args).1 = 0%Z ↔
   gen_succeeds RunAndWriteFile w args).
Proof.
  split; [|split; [|apply RunGen_code]].
  - intros Hlen. unfold RunGen.
    destruct (length args =? 1)%nat eqn:E; [|done].
    by apply Nat.eqb_eq in E.
  - intros dir ->. unfold RunGen. simpl.
    destruct (HasSwitch w (kArgs w)); simpl;
      destruct (DoSetup_result w dir true); simpl; try by eexists.
    all: destruct (Run_result w); simpl; try by eexists.
    all: destruct (write_and_check _ _ _ _ _); simpl; by eexists.
Qed.

Lemma RunGen_exit_codes_witness :
  RunGen Examples.write_rule Examples.output_file_of
    Examples.user_visible_name Examples.quiet_world
    ["out/Debug"; "out/Release"] = (1%Z, [PrintToStdout usage_error]).
Proof.
  apply (RunGen_exit_codes Examples.write_rule Examples.output_file_of
    Examples.user_visible_name Examples.quiet_world). simpl. lia.
Defined.

(** ** The selection of the IDE writer *)

(** The values of [--ide] that name a writer. *)
Definition ide_tags : list string :=
  [ kSwitchIdeValueEclipse; kSwitchIdeValueVs; kSwitchIdeValueVs2013;
    kSwitchIdeValueVs2015; kSwitchIdeValueVs2017; kSwitchIdeValueVs2019;
    kSwitchIdeValueXcode; kSwitchIdeValueQtCreator; kSwitchIdeValueJson ].

(** The writer that a value names, with the Visual Studio version. *)
Definition writer_for (ide : string) (c : Call) : Prop :=
  match c with
  | EclipseWriter_RunAndWriteFile => ide = "eclipse"
  | VisualStudioWriter_RunAndWriteFiles version _ _ _ _ _ =>
      (ide, version) ∈ [("vs", Vs2019); ("vs2013", Vs2013);
                        ("vs2015", Vs2015); ("vs2017", Vs2017);
                        ("vs2019", Vs2019)]
  | XcodeWriter_RunAndWriteFiles _ => ide = "xcode"
  | QtCreatorWriter_RunAndWriteFile _ => ide = "qtcreator"
  | JSONProjectWriter_RunAndWriteFiles _ _ _ _ _ => ide = "json"
  | _ => False
  end.

Lemma run_writer_called (w : World) (quiet : bool) (c : Call)
    (what : string) :
  ∃ out, run_writer w quiet c what = (call_result w c, Called c :: out).
Proof. unfold run_writer. destruct (call_result w c); by eexists. Qed.

Lemma RunIdeWriter_unknown (w : World) (ide : string) :
  ide ∉ ide_tags →
  RunIdeWriter w ide =
    (Some {| err_message := "Unknown IDE: " +:+ ide; err_help := "" |}, []).
Proof.
  intros Hin. unfold RunIdeWriter.
  assert (∀ tag, tag ∈ ide_tags → String.eqb ide tag = false) as Hne.
  { intros tag Htag. apply String.eqb_neq. by intros ->. }
  rewrite !Hne; [done|unfold ide_tags; set_solver..].
Qed.

(** A build system for Xcode that does not exist. *)
Definition xcode_with_ninja : World :=
  Examples.command_line
    [("ide", "xcode"); ("xcode-build-system", "ninja")] Examples.quiet_world.

(** C8, as stated, fails: [xcode] is in the set of the tags, and yet the
    Xcode writer is not invoked when the build system asked for is neither
    [new] nor [legacy]; [RunIdeWriter] fails before it calls the writer. *)
Lemma xcode_writer_not_invoked :
  "xcode" ∈ ide_tags ∧
  RunIdeWriter xcode_with_ninja (GetSwitchValueASCII xcode_with_ninja "ide") =
    (Some {| err_message := "Unknown build system: ninja"; err_help := "" |},
     []) ∧
  ∀ c, Called c ∉
         (RunIdeWriter xcode_with_ninja
            (GetSwitchValueASCII xcode_with_ninja "ide")).2.
Proof.
  split; [|split].
  - unfold ide_tags. set_solver.
  - vm_compute. reflexivity.
  - intros c. vm_compute. by intros ?%elem_of_nil.
Qed.

(** C8, amended: for every value of [--ide] outside the set of the tags
    [RunIdeWriter] fails with the error [Unknown IDE: ] followed by the
    value, without any call, and [gen] run with that value exits with code
    1. For every value in the set the writer that it names is invoked, and
    its outcome is the outcome of [RunIdeWriter], except for [xcode] when
    [--xcode-build-system] has a value that is not empty, [new] or
    [legacy]: then, and only then, [RunIdeWriter] fails with
    [Unknown build system: ] followed by that value and calls no writer. *)
Theorem ide_writer_selection
    (RunAndWriteFile : Target → string)
    (OutputFile_of : BuildSettings → SourceFile → OutputFile)
    (GetUserVisibleName : Label → bool → string)
    (w : World) (ide : string) :
  (ide ∉ ide_tags →
   RunIdeWriter w ide =
     (Some {| err_message := "Unknown IDE: " +:+ ide; err_help := "" |}, []) ∧
   (HasSwitch w kSwitchIde = true → GetSwitchValueASCII w kSwitchIde = ide →
    ∀ args,
      (RunGen RunAndWriteFile OutputFile_of GetUserVisibleName w args).1
        = 1%Z)) ∧
  (ide ∈ ide_tags →
   (ide = "xcode" ∧
    GetSwitchValueASCII w kSwitchXcodeBuildSystem ∉ [""; "new"; "legacy"] →
    RunIdeWriter w ide =
      (Some {| err_message :=
                 "Unknown build system: " +:+
                 GetSwitchValueASCII w kSwitchXcodeBuildSystem;
               err_help := "" |}, []) ∧
    ∀ c, Called c ∉ (RunIdeWriter w ide).2) ∧
   (¬ (ide = "xcode" ∧
       GetSwitchValueASCII w kSwitchXcodeBuildSystem ∉ [""; "new"; "legacy"]) →
    ∃ c out,
      writer_for ide c ∧
      RunIdeWriter w ide = (call_result w c, Called c :: out))).
Proof.
  split.
  - intros Hin. split; [by apply RunIdeWriter_unknown|].
    intros Hide Hval args.
    destruct (RunGen_code RunAndWriteFile OutputFile_of GetUserVisibleName
      w args) as [[H0|H1] Hiff]; [|done].
    apply Hiff in H0 as (dir & _ & _ & _ & _ & _ & _ & Hw & _).
    specialize (Hw Hide). rewrite Hval, RunIdeWriter_unknown in Hw; done.
  - intros Hin.
    assert ((∃ c out,
               writer_for ide c ∧
               RunIdeWriter w ide = (call_result w c, Called c :: out)) ∧
            ¬ (ide = "xcode" ∧
               GetSwitchValueASCII w kSwitchXcodeBuildSystem
                 ∉ [""; "new"; "legacy"]) ∨
            (ide = "xcode" ∧
             GetSwitchValueASCII w kSwitchXcodeBuildSystem
               ∉ [""; "new"; "legacy"]) ∧
            RunIdeWriter w ide =
              (Some {| err_message :=
                         "Unknown build system: " +:+
                         GetSwitchValueASCII w kSwitchXcodeBuildSystem;
                       err_help := "" |}, [])) as [[Hcall Hgood]|[Hbad Hfail]].
    2: { split; [by intros ?|]. by intros _. }
    2: { split; [|by intros ?]. intros _. split; [done|].
         intros c. rewrite Hfail. apply not_elem_of_nil. }
    unfold ide_tags in Hin.
    repeat (apply elem_of_cons in Hin as [->|Hin]);
      [..|by apply elem_of_nil in Hin].
    1-6,8-9: left; split; [|by intros [[=] _]];
      unfold RunIdeWriter; cbn [String.eqb Ascii.eqb Bool.eqb
      kSwitchIdeValueEclipse kSwitchIdeValueVs kSwitchIdeValueVs2013
      kSwitchIdeValueVs2015 kSwitchIdeValueVs2017 kSwitchIdeValueVs2019
      kSwitchIdeValueXcode kSwitchIdeValueQtCreator kSwitchIdeValueJson
      orb andb];
      match goal with
      | |- ∃ c out, _ ∧ run_writer ?w ?q ?c' ?what = _ =>
          destruct (run_writer_called w q c' what) as [out ->];
          exists c', out; split; [|done]; simpl; set_solver
      end.
    unfold RunIdeWriter; cbn [String.eqb Ascii.eqb Bool.eqb
      kSwitchIdeValueEclipse kSwitchIdeValueVs kSwitchIdeValueVs2013
      kSwitchIdeValueVs2015 kSwitchIdeValueVs2017 kSwitchIdeValueVs2019
      kSwitchIdeValueXcode kSwitchIdeValueQtCreator kSwitchIdeValueJson
      orb andb].
    destruct (String.eqb (GetSwitchValueASCII w kSwitchXcodeBuildSystem) "")
      eqn:E1; cbn [negb].
    { left. apply String.eqb_eq in E1. split.
      - match goal with
        | |- ∃ c out, _ ∧ run_writer ?w ?q ?c' ?what = _ =>
            destruct (run_writer_called w q c' what) as [out ->];
            by exists c', out
        end.
      - intros [_ Hbad]. apply Hbad. rewrite E1. by left. }
    destruct (String.eqb (GetSwitchValueASCII w kSwitchXcodeBuildSystem)
                kSwitchXcodeBuildsystemValueNew) eqn:E2.
    { left. apply String.eqb_eq in E2. split.
      - match goal with
        | |- ∃ c out, _ ∧ run_writer ?w ?q ?c' ?what = _ =>
            destruct (run_writer_called w q c' what) as [out ->];
            by exists c', out
        end.
      - intros [_ Hbad]. apply Hbad. rewrite E2. right. by left. }
    destruct (String.eqb (GetSwitchValueASCII w kSwitchXcodeBuildSystem)
                kSwitchXcodeBuildsystemValueLegacy) eqn:E3.
    { left. apply String.eqb_eq in E3. split.
      - match goal with
        | |- ∃ c out, _ ∧ run_writer ?w ?q ?c' ?what = _ =>
            destruct (run_writer_called w q c' what) as [out ->];
            by exists c', out
        end.
      - intros [_ Hbad]. apply Hbad. rewrite E3. do 2 right. by left. }
    right. split; [|done]. split; [done|].
    apply String.eqb_neq in E1, E2, E3. intros Hin.
    repeat (apply elem_of_cons in Hin as [?|Hin]; [done|]).
    by apply elem_of_nil in Hin.
Qed.

Lemma ide_writer_selection_witness :
  RunIdeWriter Examples.quiet_world "unknown" =
    (Some {| err_message := "Unknown IDE: unknown"; err_help := "" |}, []).
Proof.
  apply (ide_writer_selection Examples.write_rule Examples.output_file_of
    Examples.user_visible_name Examples.quiet_world "unknown").
  apply (bool_decide_unpack _). by vm_compute.
Defined.

(** ** Jumbo statistics *)

(** The rules of all the toolchains. *)
Definition all_rules (r : PerToolchainRules) : list TargetRulePair :=
  map_to_list r ≫= snd.

(** The number of rules whose target satisfies a test. *)
Definition count_targets (P : Target → bool) (entries : list TargetRulePair)
    : Z :=
  Z.of_nat (length (filter (λ p, P p.1 = true) entries)).

Lemma count_targets_cons (P : Target → bool) (p : TargetRulePair)
    (entries : list TargetRulePair) :
  count_targets P (p :: entries) =
    ((if P p.1 then 1 else 0) + count_targets P entries)%Z.
Proof.
  unfold count_targets. rewrite filter_cons.
  destruct (P p.1) eqn:E.
  - rewrite decide_True by done. cbn [length].
    rewrite Nat2Z.inj_succ. unfold Z.succ. rewrite Z.add_comm. reflexivity.
  - rewrite decide_False by congruence. reflexivity.
Qed.

Lemma foldl_nested {A B C} (f : A → B → A) (l : list (C * list B)) (a : A) :
  foldl (λ st cur, foldl f st cur.2) a l = foldl f a (l ≫= snd).
Proof.
  revert a. induction l as [|c l IH]; intros a; simpl; [done|].
  by rewrite foldl_app, IH.
Qed.

Lemma elem_of_set_insert (x t : Target) (s : list Target) :
  t ∈ set_insert x s → t = x ∨ t ∈ s.
Proof.
  induction s as [|u s IH]; simpl.
  - intros ->%list_elem_of_singleton. by left.
  - destruct (target_addr x <? target_addr u)%positive.
    { intros [->|H]%elem_of_cons; [by left|by right]. }
    destruct (target_addr u <? target_addr x)%positive; [|by right].
    intros [->|H]%elem_of_cons; [right; by left|].
    destruct (IH H) as [->|H']; [by left|right; by right].
Qed.

Lemma set_insert_keeps (x t : Target) (s : list Target) :
  t ∈ s → t ∈ set_insert x s.
Proof.
  induction s as [|u s IH]; simpl; [by intros ?%elem_of_nil|].
  destruct (target_addr x <? target_addr u)%positive; [by right|].
  destruct (target_addr u <? target_addr x)%positive; [|done].
  intros [->|H]%elem_of_cons; [by left|right; by apply IH].
Qed.

Lemma set_insert_holds (x : Target) (s : list Target) :
  ∃ t, t ∈ set_insert x s ∧ target_addr t = target_addr x.
Proof.
  induction s as [|u s (t & Ht & Haddr)]; simpl.
  - exists x. split; [by left|done].
  - destruct (target_addr x <? target_addr u)%positive eqn:E1.
    { exists x. split; [by left|done]. }
    destruct (target_addr u <? target_addr x)%positive eqn:E2.
    { exists t. split; [by right|done]. }
    exists u. split; [by left|].
    apply Pos.ltb_ge in E1, E2. lia.
Qed.

Definition jumbo_allowed_target (t : Target) : bool :=
  is_jumbo_configured t && is_jumbo_allowed t.
Definition jumbo_disallowed_target (t : Target) : bool :=
  is_jumbo_configured t && negb (is_jumbo_allowed t).
Definition jumbo_not_configured_target (t : Target) : bool :=
  negb (is_jumbo_configured t) && IsBinary t.

Lemma jumbo_visit_spec (st : JumboStats) (p : TargetRulePair) :
  jumbo_allowed_count (jumbo_visit st p) =
    (jumbo_allowed_count st + if jumbo_allowed_target p.1 then 1 else 0)%Z ∧
  jumbo_disallowed_count (jumbo_visit st p) =
    (jumbo_disallowed_count st
     + if jumbo_disallowed_target p.1 then 1 else 0)%Z ∧
  jumbo_not_configured_targets (jumbo_visit st p) =
    if jumbo_not_configured_target p.1
    then set_insert p.1 (jumbo_not_configured_targets st)
    else jumbo_not_configured_targets st.
Proof.
  unfold jumbo_visit, jumbo_allowed_target, jumbo_disallowed_target,
    jumbo_not_configured_target.
  destruct (is_jumbo_configured p.1), (is_jumbo_allowed p.1),
    (IsBinary p.1); simpl; repeat split; lia.
Qed.

Lemma jumbo_fold (entries : list TargetRulePair) (st : JumboStats) :
  jumbo_allowed_count (foldl jumbo_visit st entries) =
    (jumbo_allowed_count st + count_targets jumbo_allowed_target entries)%Z ∧
  jumbo_disallowed_count (foldl jumbo_visit st entries) =
    (jumbo_disallowed_count st
     + count_targets jumbo_disallowed_target entries)%Z ∧
  (∀ t, t ∈ jumbo_not_configured_targets (foldl jumbo_visit st entries) →
        t ∈ jumbo_not_configured_targets st ∨
        ∃ p, p ∈ entries ∧ p.1 = t ∧ jumbo_not_configured_target t = true) ∧
  (∀ t, t ∈ jumbo_not_configured_targets st →
        t ∈ jumbo_not_configured_targets (foldl jumbo_visit st entries)) ∧
  (∀ p, p ∈ entries → jumbo_not_configured_target p.1 = true →
        ∃ t, t ∈ jumbo_not_configured_targets (foldl jumbo_visit st entries) ∧
             target_addr t = target_addr p.1).
Proof.
  revert st. induction entries as [|p entries IH]; intros st.
  { simpl. unfold count_targets. simpl. rewrite !Z.add_0_r.
    repeat split; try done; [by left|]. by intros p ?%elem_of_nil. }
  cbn [foldl].
  destruct (IH (jumbo_visit st p)) as (Ha & Hd & Hin & Hkeep & Hall).
  destruct (jumbo_visit_spec st p) as (Va & Vd & Vs).
  rewrite Ha, Hd, Va, Vd, !count_targets_cons. clear IH Ha Hd Va Vd.
  split; [lia|]. split; [lia|]. rewrite Vs in Hin, Hkeep. clear Vs.
  split; [|split].
  - intros t Ht. destruct (Hin t Ht) as [Hs|(q & ? & ? & ?)].
    + destruct (jumbo_not_configured_target p.1) eqn:E; [|by left].
      apply elem_of_set_insert in Hs as [->|Hs]; [|by left].
      right. exists p. split; [by left|done].
    + right. exists q. split; [by right|done].
  - intros t Ht. apply Hkeep.
    destruct (jumbo_not_configured_target p.1); [|done].
    by apply set_insert_keeps.
  - intros q [->|Hq]%elem_of_cons Hq'; [|by apply Hall].
    rewrite Hq' in Hkeep.
    destruct (set_insert_holds p.1 (jumbo_not_configured_targets st))
      as (t & Ht & Haddr).
    exists t. split; [by apply Hkeep|done].
Qed.

Lemma Sorted_weaken {A} (R1 R2 : relation A) (l : list A) :
  (∀ a b, R1 a b → R2 a b) → Sorted R1 l → Sorted R2 l.
Proof.
  intros HR. induction 1 as [|x l _ IH Hx]; constructor; [done|].
  destruct Hx; constructor. by apply HR.
Qed.

(** The order of the second sort. *)
Definition sources_le : relation Target :=
  λ a b, (length (sources a) ≤ length (sources b))%nat.

Lemma not_configured_sorted (s : list Target) :
  StronglySorted sources_le (std_sort sources_less s) ∧
  std_sort sources_less s ≡ₚ s.
Proof.
  split; [|apply std_sort_Permutation].
  assert (∀ a b, ascending sources_less a b ↔ sources_le a b) as Hiff.
  { intros a b. unfold ascending, sources_less, sources_le.
    rewrite bool_decide_eq_false. lia. }
  assert (Sorted sources_le (std_sort sources_less s)) as Hs.
  { eapply Sorted_weaken; [|apply (std_sort_Sorted sources_less)].
    - intros a b. apply Hiff.
    - intros a b. unfold sources_less.
      rewrite bool_decide_eq_true, bool_decide_eq_false. lia. }
  apply Sorted_StronglySorted; [|done].
  intros a b c. unfold sources_le. lia.
Qed.

Section JumboFacts.
Variable RunAndWriteFile : Target → string.
Variable OutputFile_of : BuildSettings → SourceFile → OutputFile.
Variable GetUserVisibleName : Label → bool → string.

Lemma jumbo_collect_spec (r : PerToolchainRules) :
  jumbo_allowed_count (jumbo_collect true r) =
    count_targets jumbo_allowed_target (all_rules r) ∧
  jumbo_disallowed_count (jumbo_collect true r) =
    count_targets jumbo_disallowed_target (all_rules r) ∧
  (∀ t, t ∈ jumbo_not_configured_targets (jumbo_collect true r) →
        jumbo_not_configured_target t = true ∧
        ∃ p, p ∈ all_rules r ∧ p.1 = t) ∧
  (∀ p, p ∈ all_rules r → jumbo_not_configured_target p.1 = true →
        ∃ t, t ∈ jumbo_not_configured_targets (jumbo_collect true r) ∧
             target_addr t = target_addr p.1).
Proof.
  unfold jumbo_collect. rewrite foldl_nested. fold (all_rules r).
  destruct (jumbo_fold (all_rules r) jumbo_init) as (Ha & Hd & Hin & _ & Hall).
  rewrite Ha, Hd. simpl. repeat split; [| |done].
  - destruct (Hin t H) as [Hnil|(p & Hp & <- & Hnc)]; [|done].
    by apply elem_of_nil in Hnil.
  - destruct (Hin t H) as [Hnil|(p & Hp & <- & Hnc)]; [|by exists p].
    by apply elem_of_nil in Hnil.
Qed.

Lemma write_and_check_report (w : World) (r : PerToolchainRules)
    (st : JumboStats) :
  (write_and_check OutputFile_of GetUserVisibleName w r st).1 = 0%Z →
  ∃ before,
    (write_and_check OutputFile_of GetUserVisibleName w r st).2 =
    before ++ report GetUserVisibleName w r st.
Proof.
  unfold write_and_check.
  destruct (call_result w (NinjaWriter_RunAndWriteFiles r)); [done|].
  destruct (call_result w WriteRuntimeDepsFilesIfNecessary); [done|].
  destruct (CheckForInvalidGeneratedInputs _ _ _ _) as [[] printed];
    cbn [negb]; [|done].
  destruct (optional_writer w kSwitchIde _) as [[e|] ev1]; [done|].
  destruct (optional_writer w kSwitchExportCompileCommands _)
    as [[e|] ev2]; [done|].
  destruct (optional_writer w kSwitchExportRustProject _)
    as [[e|] ev3]; [done|].
  intros _. cbn [snd]. by eexists.
Qed.

Lemma RunGen_report (w : World) (args : list string) :
  (RunGen RunAndWriteFile OutputFile_of GetUserVisibleName w args).1 = 0%Z →
  ∃ before,
    (RunGen RunAndWriteFile OutputFile_of GetUserVisibleName w args).2 =
    before ++
    report GetUserVisibleName w
      (sort_rules (rules (collected_rules RunAndWriteFile w)))
      (jumbo_collect (HasSwitch w kSwitchJumboStats)
         (sort_rules (rules (collected_rules RunAndWriteFile w)))).
Proof.
  unfold RunGen.
  destruct (negb (length args =? 1)%nat); [done|].
  destruct (negb (DoSetup_result w _ true)); [done|].
  destruct (negb (Run_result w)); [done|].
  pose proof (write_and_check_report w
    (sort_rules (rules (collected_rules RunAndWriteFile w)))
    (jumbo_collect (HasSwitch w kSwitchJumboStats)
       (sort_rules (rules (collected_rules RunAndWriteFile w))))) as H.
  destruct (write_and_check _ _ _ _ _) as [code ev]. simpl in *.
  intros Hcode. destruct (H Hcode) as [before ->].
  eexists. by rewrite List.app_assoc.
Qed.

End JumboFacts.

(** The rules of the small build, sorted. *)
Definition example_rules : PerToolchainRules :=
  sort_rules (rules (run_workers Examples.write_rule
    (dispatch Examples.the_records) {| rules := ∅ |})).

(** The targets that the specification counts as allowed: the binary
    targets with a jumbo configuration that allows jumbo. *)
Definition jumbo_allowed_binary_target (t : Target) : bool :=
  IsBinary t && is_jumbo_configured t && is_jumbo_allowed t.

(** C9, as stated, fails: the action [//base:gen] is not a binary target
    and is counted as allowed all the same. *)
Lemma jumbo_counts_targets_that_are_not_binary :
  jumbo_allowed_count (jumbo_collect true example_rules) = 1%Z ∧
  count_targets jumbo_allowed_binary_target (all_rules example_rules) = 0%Z.
Proof. split; vm_compute; reflexivity. Qed.

(** C9, amended: when the jumbo statistics are asked for, the counts of
    allowed and disallowed targets are taken among all the targets with a
    jumbo configuration, binary or not; the targets without a jumbo
    configuration that are binary make the not-configured bucket, which
    holds one entry for each of their addresses; and a run that succeeds
    and is not quiet prints the report, in which the bucket is listed in
    ascending order of the number of sources of the targets. *)
Theorem jumbo_statistics
    (RunAndWriteFile : Target → string)
    (OutputFile_of : BuildSettings → SourceFile → OutputFile)
    (GetUserVisibleName : Label → bool → string)
    (w : World) (args : list string) :
  HasSwitch w kSwitchJumboStats = true →
  ∃ r st printed,
    r = sort_rules (rules (collected_rules RunAndWriteFile w)) ∧
    st = jumbo_collect true r ∧
    jumbo_allowed_count st = count_targets jumbo_allowed_target (all_rules r) ∧
    jumbo_disallowed_count st =
      count_targets jumbo_disallowed_target (all_rules r) ∧
    (∀ t, t ∈ jumbo_not_configured_targets st →
          is_jumbo_configured t = false ∧ IsBinary t = true ∧
          ∃ p, p ∈ all_rules r ∧ p.1 = t) ∧
    (∀ p, p ∈ all_rules r →
          is_jumbo_configured p.1 = false → IsBinary p.1 = true →
          ∃ t, t ∈ jumbo_not_configured_targets st ∧
               target_addr t = target_addr p.1) ∧
    printed ≡ₚ jumbo_not_configured_targets st ∧
    StronglySorted sources_le printed ∧
    jumbo_report GetUserVisibleName st =
      [OutputString ("Jumbo is not configured in following targets:" +:+ nl)
         DECORATION_NONE]
      ++ map (λ target,
                OutputString
                  (GetUserVisibleName (label target) false +:+ " (" +:+
                   pretty (length (sources target)) +:+ " sources)" +:+ nl)
                  DECORATION_NONE) printed
      ++ [OutputString
            (nl +:+ "Jumbo is not configured in " +:+
             pretty (length printed) +:+ " targets." +:+ nl)
            DECORATION_NONE;
          OutputString
            ("Jumbo is allowed in " +:+ pretty (jumbo_allowed_count st) +:+
             " targets." +:+ nl) DECORATION_NONE;
          OutputString
            ("Jumbo is disallowed in " +:+
             pretty (jumbo_disallowed_count st) +:+ " targets." +:+ nl +:+ nl)
            DECORATION_NONE] ∧
    (HasSwitch w (kQuiet w) = false →
     (RunGen RunAndWriteFile OutputFile_of GetUserVisibleName w args).1
       = 0%Z →
     ∃ before after,
       (RunGen RunAndWriteFile OutputFile_of GetUserVisibleName w args).2 =
       before ++ jumbo_report GetUserVisibleName st ++ after).
Proof.
  intros Hjumbo.
  set (r := sort_rules (rules (collected_rules RunAndWriteFile w))).
  exists r, (jumbo_collect true r),
    (std_sort sources_less (jumbo_not_configured_targets (jumbo_collect true r))).
  destruct (jumbo_collect_spec r) as (Ha & Hd & Hin & Hall).
  destruct (not_configured_sorted
    (jumbo_not_configured_targets (jumbo_collect true r))) as [Hsorted Hperm].
  do 4 (split; [done|]). split; [|split; [|do 3 (split; [done|])]].
  - intros t Ht. destruct (Hin t Ht) as [Hnc Hp].
    unfold jumbo_not_configured_target in Hnc.
    apply andb_prop in Hnc as [Hc%negb_true_iff Hb]. done.
  - intros p Hp Hc Hb. apply Hall; [done|].
    unfold jumbo_not_configured_target. by rewrite Hc, Hb.
  - intros Hquiet Hcode.
    destruct (RunGen_report RunAndWriteFile OutputFile_of GetUserVisibleName
      w args Hcode) as [before ->].
    unfold report. rewrite Hquiet, Hjumbo. simpl negb. cbv iota.
    fold r. by eexists _, _.
Qed.

Lemma jumbo_statistics_witness :
  ∃ st,
    st = jumbo_collect true example_rules ∧
    jumbo_disallowed_count st =
      count_targets jumbo_disallowed_target (all_rules example_rules).
Proof.
  destruct (jumbo_statistics Examples.write_rule Examples.output_file_of
    Examples.user_visible_name
    (with_schedule
       (Examples.command_line [("jumbo-stats", "")] Examples.quiet_world) id)
    ["out/Debug"]) as (r & st & printed & -> & -> & _ & H & _).
  { reflexivity. }
  eexists. split; [reflexivity|exact H].
Defined.

(** ** The small build, run *)

(** Without switches every step succeeds: the exit code is 0 and the run
    ends with the summary of the four targets. *)
Example gen_succeeds_on_the_small_build :
  (RunGen Examples.write_rule Examples.output_file_of
     Examples.user_visible_name Examples.quiet_world ["out/Debug"]).1 = 0%Z ∧
  last (RunGen Examples.write_rule Examples.output_file_of
          Examples.user_visible_name Examples.quiet_world ["out/Debug"]).2 =
    Some (OutputString ("Made 4 targets from 5 files in 340ms" +:+ nl)
            DECORATION_NONE).
Proof. split; vm_compute; reflexivity. Qed.

(** [gn gen out/Debug --ide=unknown]: the last thing printed is the error,
    and the exit code is 1. *)
Example gen_with_unknown_ide :
  (RunGen Examples.write_rule Examples.output_file_of
     Examples.user_visible_name
     (Examples.command_line [("ide", "unknown")] Examples.quiet_world)
     ["out/Debug"]).1 = 1%Z ∧
  last (RunGen Examples.write_rule Examples.output_file_of
          Examples.user_visible_name
          (Examples.command_line [("ide", "unknown")] Examples.quiet_world)
          ["out/Debug"]).2 =
    Some (PrintToStdout
            {| err_message := "Unknown IDE: unknown"; err_help := "" |}).
Proof. split; vm_compute; reflexivity. Qed.

(** A header that no target writes, listed by a target of the default
    toolchain: no toolchain is shown. *)
Example diagnostic_without_producer :
  PrintInvalidGeneratedInput Examples.output_file_of
    Examples.user_visible_name Examples.the_builder
    "//out/Debug/gen/missing.h" [Examples.app] =
  Some {| err_message := "Input to target not generated by a dependency.";
          err_help :=
            "The file:" +:+ nl +:+
            "  //out/Debug/gen/missing.h" +:+ nl +:+
            "is listed as an input or source for the target:" +:+ nl +:+
            "  //app:app" +:+ nl +:+
            "but no targets in the build generate that file." |}.
Proof. vm_compute. reflexivity. Qed.

(** The header of [//base:gen], listed by the two [//app:app]: one of them
    is built with the arm toolchain, so every label shows its toolchain. *)
Example diagnostic_with_toolchains :
  PrintInvalidGeneratedInput Examples.output_file_of
    Examples.user_visible_name Examples.the_builder
    "//out/Debug/gen/base/b.h" [Examples.app; Examples.app_arm] =
  Some {| err_message := "Input to targets not generated by a dependency.";
          err_help :=
            "The file:" +:+ nl +:+
            "  //out/Debug/gen/base/b.h" +:+ nl +:+
            "is listed as an input or source for the targets:" +:+ nl +:+
            "  //app:app(//toolchain:default)" +:+ nl +:+
            "  //app:app(//toolchain:arm)" +:+ nl +:+
            "but this file was not generated by any dependencies of the "
            +:+ "targets. The target" +:+ nl +:+
            "that generates the file is:" +:+ nl +:+
            "  //base:gen(//toolchain:default)" |}.
Proof. vm_compute. reflexivity. Qed.

(** The rules of the default toolchain of the small build, whatever the
    order of the workers: [//app:app], [//base:base], [//base:gen]. *)
Example sorted_rules_of_the_small_build :
  (λ p : TargetRulePair, label_dir (label p.1) +:+ ":" +:+ label_name (label p.1))
    <$> default [] (example_rules !! 1%positive) =
  ["//app:app"; "//base:base"; "//base:gen"].
Proof. vm_compute. reflexivity. Qed.

(** * Further properties of the driver *)

(** ** The calls of a trace *)

Definition call_of (ev : Event) : option Call :=
  match ev with
  | Called c => Some c
  | _ => None
  end.

(** The calls to collaborators of a trace, in their order. *)
Definition calls_of (trace : list Event) : list Call := omap call_of trace.

(** What a trace writes to standard output. *)
Definition is_output (ev : Event) : bool :=
  match ev with
  | Called _ => false
  | _ => true
  end.

(** The writers of project files. *)
Definition is_project_writer (c : Call) : bool :=
  match c with
  | EclipseWriter_RunAndWriteFile
  | VisualStudioWriter_RunAndWriteFiles _ _ _ _ _ _
  | XcodeWriter_RunAndWriteFiles _
  | QtCreatorWriter_RunAndWriteFile _
  | JSONProjectWriter_RunAndWriteFiles _ _ _ _ _
  | RustProjectWriter_RunAndWriteFiles _ _
  | CompileCommandsWriter_RunAndWriteFiles _ _ _ => true
  | _ => false
  end.

Lemma calls_of_app (t1 t2 : list Event) :
  calls_of (t1 ++ t2) = calls_of t1 ++ calls_of t2.
Proof. apply omap_app. Qed.

Lemma calls_of_outputs (trace : list Event) :
  Forall (λ ev, is_output ev = true) trace → calls_of trace = [].
Proof.
  induction 1 as [|ev trace Hev _ IH]; [done|].
  destruct ev; try done; exact IH.
Qed.

Lemma run_writer_trace (w : World) (quiet : bool) (c : Call) (what : string) :
  ∃ timing,
    run_writer w quiet c what = (call_result w c, Called c :: timing) ∧
    Forall (λ ev, ∃ s, ev = OutputString s DECORATION_NONE) timing ∧
    (length timing ≤ 1)%nat ∧
    (timing ≠ [] ↔ call_result w c = None ∧ quiet = false).
Proof.
  unfold run_writer. destruct (call_result w c) as [e|].
  - exists []. split; [done|]. split; [constructor|]. split; [simpl; lia|].
    split; [done|]. by intros [? _].
  - destruct quiet; cbn [negb].
    + exists []. split; [done|]. split; [constructor|]. split; [simpl; lia|].
      split; [done|]. by intros [_ ?].
    + eexists [_]. split; [done|]. split; [|split; [simpl; lia|done]].
      repeat constructor. by eexists.
Qed.

(** [RunIdeWriter] either fails before any call, or is the call of one
    writer followed by the end that the writers share. *)
Lemma RunIdeWriter_shape (w : World) (ide : string) :
  (∃ e, RunIdeWriter w ide = (Some e, [])) ∨
  (∃ c what,
     is_project_writer c = true ∧
     RunIdeWriter w ide = run_writer w (HasSwitch w (kQuiet w)) c what).
Proof.
  assert (∀ c what,
    is_project_writer c = true →
    (∃ e, run_writer w (HasSwitch w (kQuiet w)) c what = (Some e, [])) ∨
    (∃ c' what',
       is_project_writer c' = true ∧
       run_writer w (HasSwitch w (kQuiet w)) c what =
       run_writer w (HasSwitch w (kQuiet w)) c' what')) as Hrun.
  { intros c what Hc. right. by exists c, what. }
  unfold RunIdeWriter.
  destruct (String.eqb ide kSwitchIdeValueEclipse); [by apply Hrun|].
  destruct (_ || _); [by apply Hrun|].
  destruct (String.eqb ide kSwitchIdeValueXcode).
  { destruct (negb _); [|by apply Hrun].
    destruct (String.eqb _ kSwitchXcodeBuildsystemValueNew);
      [by apply Hrun|].
    destruct (String.eqb _ kSwitchXcodeBuildsystemValueLegacy);
      [by apply Hrun|].
    left. by eexists. }
  destruct (String.eqb ide kSwitchIdeValueQtCreator); [by apply Hrun|].
  destruct (String.eqb ide kSwitchIdeValueJson); [by apply Hrun|].
  left. by eexists.
Qed.

(** What a wrapper calls the files of a writer in the line with the time
    taken (lines 204, 238, 272, 284, 304, 327 and 349). *)
Definition writer_title (c : Call) : string :=
  match c with
  | EclipseWriter_RunAndWriteFile => "Eclipse settings"
  | VisualStudioWriter_RunAndWriteFiles _ _ _ _ _ _ =>
      "Visual Studio projects"
  | XcodeWriter_RunAndWriteFiles _ => "Xcode projects"
  | QtCreatorWriter_RunAndWriteFile _ => "QtCreator projects"
  | JSONProjectWriter_RunAndWriteFiles _ _ _ _ _ => "JSON projects"
  | RustProjectWriter_RunAndWriteFiles _ _ => "rust-project.json"
  | CompileCommandsWriter_RunAndWriteFiles _ _ _ => "compile_commands"
  | _ => ""
  end.

(** The trace of a wrapper that called the writer [c]: the call, and then
    the line with the time taken when the writer succeeded and [--quiet]
    was not given. *)
Definition trace_of_writer (w : World) (c : Call) : list Event :=
  Called c ::
  if bool_decide (call_result w c = None ∧ HasSwitch w (kQuiet w) = false)
  then [OutputString
          ("Generating " +:+ writer_title c +:+ " took " +:+
           pretty (call_elapsed_ms w c) +:+ "ms" +:+ nl) DECORATION_NONE]
  else [].

Lemma run_writer_title (w : World) (c : Call) :
  run_writer w (HasSwitch w (kQuiet w)) c (writer_title c) =
    (call_result w c, trace_of_writer w c).
Proof.
  unfold run_writer, trace_of_writer.
  destruct (call_result w c) as [e|].
  - by rewrite bool_decide_eq_false_2 by by intros [? _].
  - destruct (HasSwitch w (kQuiet w)); cbn [negb].
    + by rewrite bool_decide_eq_false_2 by by intros [_ ?].
    + by rewrite bool_decide_eq_true_2.
Qed.

(** [RunIdeWriter] either fails before any call, or is the call of one
    writer followed by the end that the writers share, with the title of
    that writer. *)
Lemma RunIdeWriter_title (w : World) (ide : string) :
  (∃ e, RunIdeWriter w ide = (Some e, [])) ∨
  (∃ c,
     is_project_writer c = true ∧
     RunIdeWriter w ide = (call_result w c, trace_of_writer w c)).
Proof.
  assert (∀ c,
    is_project_writer c = true →
    (∃ e, run_writer w (HasSwitch w (kQuiet w)) c (writer_title c)
            = (Some e, [])) ∨
    (∃ c',
       is_project_writer c' = true ∧
       run_writer w (HasSwitch w (kQuiet w)) c (writer_title c) =
       (call_result w c', trace_of_writer w c'))) as Hrun.
  { intros c Hc. right. exists c. by rewrite run_writer_title. }
  unfold RunIdeWriter.
  destruct (String.eqb ide kSwitchIdeValueEclipse);
    [exact (Hrun EclipseWriter_RunAndWriteFile eq_refl)|].
  destruct (_ || _);
    [exact (Hrun (VisualStudioWriter_RunAndWriteFiles _ _ _ _ _ _) eq_refl)|].
  destruct (String.eqb ide kSwitchIdeValueXcode).
  { destruct (negb _);
      [|exact (Hrun (XcodeWriter_RunAndWriteFiles _) eq_refl)].
    destruct (String.eqb _ kSwitchXcodeBuildsystemValueNew);
      [exact (Hrun (XcodeWriter_RunAndWriteFiles _) eq_refl)|].
    destruct (String.eqb _ kSwitchXcodeBuildsystemValueLegacy);
      [exact (Hrun (XcodeWriter_RunAndWriteFiles _) eq_refl)|].
    left. by eexists. }
  destruct (String.eqb ide kSwitchIdeValueQtCreator);
    [exact (Hrun (QtCreatorWriter_RunAndWriteFile _) eq_refl)|].
  destruct (String.eqb ide kSwitchIdeValueJson);
    [exact (Hrun (JSONProjectWriter_RunAndWriteFiles _ _ _ _ _) eq_refl)|].
  left. by eexists.
Qed.

(** X1: the three wrappers of the project writers ([RunIdeWriter],
    [RunRustProjectWriter], [RunCompileCommandsWriter]) call at most one
    writer, return its outcome and never print an error themselves. What
    they write is one line at most, after the call, exactly when the writer
    succeeded and [--quiet] was not given: the line
    [Generating ... took ...ms] with the title of the writer that was
    called and the time that this call took. *)
Theorem wrappers_print_time_iff_success_and_not_quiet (w : World)
    (ide : string) (run : option Err * list Event) :
  run = RunIdeWriter w ide ∨ run = RunRustProjectWriter w ∨
  run = RunCompileCommandsWriter w →
  (length (calls_of run.2) ≤ 1)%nat ∧
  (∀ c, c ∈ calls_of run.2 →
        is_project_writer c = true ∧ run.1 = call_result w c) ∧
  (∀ e, PrintToStdout e ∉ run.2) ∧
  ((∃ s d, OutputString s d ∈ run.2) ↔
   run.1 = None ∧ HasSwitch w (kQuiet w) = false) ∧
  (∀ s d,
     OutputString s d ∈ run.2 →
     ∃ c,
       run.2 = [Called c; OutputString s d] ∧
       d = DECORATION_NONE ∧
       s = "Generating " +:+ writer_title c +:+ " took " +:+
           pretty (call_elapsed_ms w c) +:+ "ms" +:+ nl).
Proof.
  intros Hrun.
  assert ((∃ e, run = (Some e, [])) ∨
          ∃ c, is_project_writer c = true ∧
               run = (call_result w c, trace_of_writer w c))
    as [[e ->]|(c & Hc & ->)].
  { destruct Hrun as [->|[->| ->]].
    - apply RunIdeWriter_title.
    - right. eexists. split; [|apply run_writer_title]. reflexivity.
    - right. eexists. split; [|apply run_writer_title]. reflexivity. }
  - cbn [fst snd calls_of omap list_omap length].
    split; [lia|]. split; [by intros c ?%elem_of_nil|].
    split; [by intros e' ?%elem_of_nil|]. split; [split|].
    + by intros (s & d & ?%elem_of_nil).
    + by intros [? _].
    + by intros s d ?%elem_of_nil.
  - cbn [fst snd]. unfold trace_of_writer.
    case_bool_decide as Hok.
    + destruct Hok as [Hres Hquiet].
      split; [simpl; lia|]. split; [|split; [|split; [split|]]].
      * by intros c' ->%list_elem_of_singleton.
      * intros e [?|[?|?%elem_of_nil]%elem_of_cons]%elem_of_cons; done.
      * done.
      * intros _. eexists _, _. right. by left.
      * intros s d [?|[[= -> ->]|?%elem_of_nil]%elem_of_cons]%elem_of_cons;
          [done| |done].
        by exists c.
    + split; [simpl; lia|]. split; [|split; [|split; [split|]]].
      * by intros c' ->%list_elem_of_singleton.
      * intros e [?|?%elem_of_nil]%elem_of_cons; done.
      * intros (s & d & [?|?%elem_of_nil]%elem_of_cons); done.
      * done.
      * intros s d [?|?%elem_of_nil]%elem_of_cons; done.
Qed.

Lemma wrappers_print_time_iff_success_and_not_quiet_witness :
  (length (calls_of (RunIdeWriter Examples.quiet_world "vs2017").2) ≤ 1)%nat.
Proof.
  apply (wrappers_print_time_iff_success_and_not_quiet Examples.quiet_world
    "vs2017" (RunIdeWriter Examples.quiet_world "vs2017")).
  by left.
Defined.

Lemma run_writer_call (w : World) (quiet : bool) (c c' : Call)
    (what : string) :
  Called c ∈ (run_writer w quiet c' what).2 → c = c'.
Proof.
  destruct (run_writer_trace w quiet c' what) as (timing & -> & Ht & _).
  cbn [snd]. intros [[= ->]|Hin]%elem_of_cons; [done|].
  rewrite Forall_forall in Ht. by destruct (Ht _ Hin).
Qed.



(** ** The order of the steps of [RunGen] *)

Section StepsOfRunGen.
Variable RunAndWriteFile : Target → string.
Variable OutputFile_of : BuildSettings → SourceFile → OutputFile.
Variable GetUserVisibleName : Label → bool → string.

Lemma Check_outputs (b : Builder) (m : multimap) :
  Forall (λ ev, is_output ev = true)
    (CheckForInvalidGeneratedInputs OutputFile_of GetUserVisibleName b m).2.
Proof.
  unfold CheckForInvalidGeneratedInputs. destruct m as [|e m]; [constructor|].
  destruct (check_loop _ _ _ _ _) as [n groups]. cbn [snd].
  assert (Forall (λ ev, is_output ev = true)
            (groups ≫= print_group OutputFile_of GetUserVisibleName b)) as Hg.
  { induction groups as [|g groups IH]; [constructor|].
    rewrite bind_cons. apply Forall_app. split; [|done].
    unfold print_group, print_event.
    destruct (PrintInvalidGeneratedInput _ _ _ _ _); by repeat constructor. }
  destruct (decide _); repeat (apply Forall_app; split);
    by repeat constructor.
Qed.

Lemma report_outputs (w : World) (r : PerToolchainRules) (st : JumboStats) :
  Forall (λ ev, is_output ev = true) (report GetUserVisibleName w r st).
Proof.
  unfold report. destruct (negb _); [|constructor].
  apply Forall_app. split; [|by repeat constructor].
  destruct (HasSwitch w kSwitchJumboStats); [|constructor].
  unfold jumbo_report. repeat (apply Forall_app; split);
    try by repeat constructor.
  apply Forall_forall. intros ev (t & -> & _)%list_elem_of_fmap. done.
Qed.

(** The calls of the set-up, in their order. *)
Definition setup_calls (w : World) (dir : string) : list Call :=
  (if HasSwitch w (kArgs w) then [] else [Setup_set_gen_empty_args])
  ++ [Setup_DoSetup dir true].

(** The calls that [--check] adds between the set-up and the load. *)
Definition check_calls (w : World) : list Call :=
  if HasSwitch w kSwitchCheck then
    Setup_set_check_public_headers ::
    if String.eqb (GetSwitchValueASCII w kSwitchCheck) "system"
    then [Setup_set_check_system_includes] else []
  else [].

(** The calls of a run in which nothing fails. *)
Definition all_calls (w : World) (dir : string) : list Call :=
  setup_calls w dir ++ check_calls w ++
  [Setup_Run;
   NinjaWriter_RunAndWriteFiles
     (sort_rules (rules (collected_rules RunAndWriteFile w)));
   WriteRuntimeDepsFilesIfNecessary]
  ++ calls_of (optional_writer w kSwitchIde
                 (RunIdeWriter w (GetSwitchValueASCII w kSwitchIde))).2
  ++ calls_of (optional_writer w kSwitchExportCompileCommands
                 (RunCompileCommandsWriter w)).2
  ++ calls_of (optional_writer w kSwitchExportRustProject
                 (RunRustProjectWriter w)).2.

Lemma write_and_check_calls (w : World) (r : PerToolchainRules)
    (st : JumboStats) :
  ∃ rest,
    [NinjaWriter_RunAndWriteFiles r; WriteRuntimeDepsFilesIfNecessary]
    ++ calls_of (optional_writer w kSwitchIde
                   (RunIdeWriter w (GetSwitchValueASCII w kSwitchIde))).2
    ++ calls_of (optional_writer w kSwitchExportCompileCommands
                   (RunCompileCommandsWriter w)).2
    ++ calls_of (optional_writer w kSwitchExportRustProject
                   (RunRustProjectWriter w)).2
    = calls_of (write_and_check OutputFile_of GetUserVisibleName w r st).2
      ++ rest ∧
    ((write_and_check OutputFile_of GetUserVisibleName w r st).1 = 0%Z →
     rest = []).
Proof.
  assert (∀ e, calls_of [PrintToStdout e] = []) as Hp by done.
  unfold write_and_check.
  destruct (call_result w (NinjaWriter_RunAndWriteFiles r)).
  { eexists. split; [reflexivity|done]. }
  destruct (call_result w WriteRuntimeDepsFilesIfNecessary).
  { eexists. split; [reflexivity|done]. }
  pose proof (Check_outputs (builder w) (GetUnknownGeneratedInputs w)) as Hc.
  apply calls_of_outputs in Hc.
  destruct (CheckForInvalidGeneratedInputs _ _ _ _) as [ok printed].
  cbn [snd] in Hc. destruct ok; cbn [negb].
  2: { cbn [fst snd].
       exists (calls_of (optional_writer w kSwitchIde
                 (RunIdeWriter w (GetSwitchValueASCII w kSwitchIde))).2
               ++ calls_of (optional_writer w kSwitchExportCompileCommands
                              (RunCompileCommandsWriter w)).2
               ++ calls_of (optional_writer w kSwitchExportRustProject
                              (RunRustProjectWriter w)).2).
       split; [|done].
       rewrite !calls_of_app, Hc, !app_nil_r, <- ?List.app_assoc.
       reflexivity. }
  destruct (optional_writer w kSwitchIde _) as [[e|] ev1]; cbn [fst snd].
  { exists (calls_of (optional_writer w kSwitchExportCompileCommands
                        (RunCompileCommandsWriter w)).2
            ++ calls_of (optional_writer w kSwitchExportRustProject
                           (RunRustProjectWriter w)).2).
    split; [|done].
    rewrite !calls_of_app, Hc, Hp, !app_nil_r, <- ?List.app_assoc.
    reflexivity. }
  destruct (optional_writer w kSwitchExportCompileCommands _)
    as [[e|] ev2]; cbn [fst snd].
  { exists (calls_of (optional_writer w kSwitchExportRustProject
                        (RunRustProjectWriter w)).2).
    split; [|done].
    rewrite !calls_of_app, Hc, Hp, !app_nil_r, <- ?List.app_assoc.
    reflexivity. }
  destruct (optional_writer w kSwitchExportRustProject _)
    as [[e|] ev3]; cbn [fst snd].
  { exists []. split; [|done].
    rewrite !calls_of_app, Hc, Hp, !app_nil_r, <- ?List.app_assoc.
    reflexivity. }
  exists []. split; [|done].
  rewrite !calls_of_app, Hc, (calls_of_outputs _ (report_outputs w r st)).
  rewrite !app_nil_r, <- ?List.app_assoc. reflexivity.
Qed.

End StepsOfRunGen.

Lemma RunGen_one_arg
    (RunAndWriteFile : Target → string)
    (OutputFile_of : BuildSettings → SourceFile → OutputFile)
    (GetUserVisibleName : Label → bool → string)
    (w : World) (dir : string) :
  RunGen RunAndWriteFile OutputFile_of GetUserVisibleName w [dir] =
    let out :=
      (if HasSwitch w (kArgs w) then [] else [Called Setup_set_gen_empty_args])
      ++ [Called (Setup_DoSetup dir true)] in
    if DoSetup_result w dir true then
      let out :=
        (out ++
         if HasSwitch w kSwitchCheck then
           Called Setup_set_check_public_headers ::
           if String.eqb (GetSwitchValueASCII w kSwitchCheck) "system"
           then [Called Setup_set_check_system_includes] else []
         else []) ++ [Called Setup_Run] in
      if Run_result w then
        let r := sort_rules (rules (collected_rules RunAndWriteFile w)) in
        let res :=
          write_and_check OutputFile_of GetUserVisibleName w r
            (jumbo_collect (HasSwitch w kSwitchJumboStats) r) in
        (res.1, out ++ res.2)
      else (1%Z, out)
    else (1%Z, out).
Proof.
  unfold RunGen. cbn [length Nat.eqb negb lookup list_lookup default
                      from_option id].
  destruct (HasSwitch w (kArgs w)); cbn [negb];
    destruct (DoSetup_result w dir true); cbn [negb]; try done;
    destruct (Run_result w); cbn [negb]; try done;
    by destruct (write_and_check _ _ _ _ _).
Qed.

Lemma calls_are_an_initial_part
    (RunAndWriteFile : Target → string)
    (OutputFile_of : BuildSettings → SourceFile → OutputFile)
    (GetUserVisibleName : Label → bool → string)
    (w : World) (dir : string) :
  ∃ rest,
    all_calls RunAndWriteFile w dir =
      calls_of (RunGen RunAndWriteFile OutputFile_of GetUserVisibleName
                  w [dir]).2 ++ rest ∧
    ((RunGen RunAndWriteFile OutputFile_of GetUserVisibleName w [dir]).1
       = 0%Z → rest = []).
Proof.
  rewrite RunGen_one_arg. unfold all_calls. cbv zeta.
  assert (calls_of
            ((if HasSwitch w (kArgs w) then []
              else [Called Setup_set_gen_empty_args])
             ++ [Called (Setup_DoSetup dir true)]) = setup_calls w dir) as Hs.
  { unfold setup_calls. by destruct (HasSwitch w (kArgs w)). }
  assert (calls_of
            (if HasSwitch w kSwitchCheck then
               Called Setup_set_check_public_headers ::
               if String.eqb (GetSwitchValueASCII w kSwitchCheck) "system"
               then [Called Setup_set_check_system_includes] else []
             else []) = check_calls w) as Hc.
  { unfold check_calls. destruct (HasSwitch w kSwitchCheck); [|done].
    by destruct (String.eqb _ _). }
  destruct (DoSetup_result w dir true); cbn [fst snd].
  2: { eexists. split; [rewrite Hs; reflexivity|done]. }
  rewrite calls_of_app in Hs.
  destruct (Run_result w); cbn [fst snd].
  2: { exists ([NinjaWriter_RunAndWriteFiles
                  (sort_rules (rules (collected_rules RunAndWriteFile w)));
                WriteRuntimeDepsFilesIfNecessary]
               ++ calls_of (optional_writer w kSwitchIde
                    (RunIdeWriter w (GetSwitchValueASCII w kSwitchIde))).2
               ++ calls_of (optional_writer w kSwitchExportCompileCommands
                              (RunCompileCommandsWriter w)).2
               ++ calls_of (optional_writer w kSwitchExportRustProject
                              (RunRustProjectWriter w)).2).
       split; [|done]. rewrite !calls_of_app, Hs, Hc.
       by rewrite <- !List.app_assoc. }
  destruct (write_and_check_calls OutputFile_of GetUserVisibleName w
    (sort_rules (rules (collected_rules RunAndWriteFile w)))
    (jumbo_collect (HasSwitch w kSwitchJumboStats)
       (sort_rules (rules (collected_rules RunAndWriteFile w)))))
    as (rest & Heq & Hrest).
  exists rest. split; [|done].
  rewrite !calls_of_app, Hs, Hc, <- !List.app_assoc.
  do 2 f_equal. change (calls_of [Called Setup_Run]) with [Setup_Run].
  cbn [app]. f_equal. exact Heq.
Qed.

(** X3: the collaborators are called in one fixed order: the set-up, the
    calls that [--check] adds, the load, the writer of the root ninja files,
    the runtime deps, then the IDE writer, the compile-commands writer and
    the Rust-project writer that the command line asks for. A run makes an
    initial part of these calls, stopping at the first step that fails, and a
    run that returns 0 makes them all. *)
Theorem gen_calls_in_order
    (RunAndWriteFile : Target → string)
    (OutputFile_of : BuildSettings → SourceFile → OutputFile)
    (GetUserVisibleName : Label → bool → string)
    (w : World) (dir : string) :
  ∃ rest,
    all_calls RunAndWriteFile w dir =
      calls_of (RunGen RunAndWriteFile OutputFile_of GetUserVisibleName
                  w [dir]).2 ++ rest ∧
    ((RunGen RunAndWriteFile OutputFile_of GetUserVisibleName w [dir]).1
       = 0%Z → rest = []).
Proof.
  apply calls_are_an_initial_part.
Qed.

Lemma elem_of_calls_of (c : Call) (trace : list Event) :
  c ∈ calls_of trace ↔ Called c ∈ trace.
Proof.
  unfold calls_of. rewrite list_elem_of_omap. split.
  - intros (ev & Hev & Hc). destruct ev; simplify_eq/=. done.
  - intros Hin. by exists (Called c).
Qed.

Lemma setup_events_calls (w : World) (dir : string) (c : Call) :
  c ∈ calls_of
        ((if HasSwitch w (kArgs w) then []
          else [Called Setup_set_gen_empty_args])
         ++ [Called (Setup_DoSetup dir true)]) →
  is_project_writer c = false.
Proof.
  destruct (HasSwitch w (kArgs w)); cbn; rewrite ?elem_of_cons;
    intros H; decompose [or] H; subst; try done;
    match goal with H' : _ ∈ [] |- _ => by apply elem_of_nil in H' end.
Qed.

Lemma check_events_calls (w : World) (c : Call) :
  c ∈ calls_of
        (if HasSwitch w kSwitchCheck then
           Called Setup_set_check_public_headers ::
           if String.eqb (GetSwitchValueASCII w kSwitchCheck) "system"
           then [Called Setup_set_check_system_includes] else []
         else []) →
  is_project_writer c = false.
Proof.
  destruct (HasSwitch w kSwitchCheck); [destruct (String.eqb _ _)|]; cbn;
    rewrite ?elem_of_cons; intros H; decompose [or] H; subst; try done;
    try match goal with H' : _ ∈ [] |- _ => by apply elem_of_nil in H' end.
Qed.

Lemma write_and_check_unknown
    (OutputFile_of : BuildSettings → SourceFile → OutputFile)
    (GetUserVisibleName : Label → bool → string)
    (w : World) (r : PerToolchainRules) (st : JumboStats) (c : Call) :
  GetUnknownGeneratedInputs w ≠ [] →
  c ∈ calls_of (write_and_check OutputFile_of GetUserVisibleName w r st).2 →
  is_project_writer c = false.
Proof.
  intros Hne. unfold write_and_check.
  destruct (call_result w (NinjaWriter_RunAndWriteFiles r)).
  { cbn. by intros ->%list_elem_of_singleton. }
  destruct (call_result w WriteRuntimeDepsFilesIfNecessary).
  { cbn. rewrite !elem_of_cons. intros [->|[->|?%elem_of_nil]]; done. }
  pose proof (Check_true_iff OutputFile_of GetUserVisibleName (builder w)
    (GetUnknownGeneratedInputs w)) as Htrue.
  pose proof (Check_outputs OutputFile_of GetUserVisibleName (builder w)
    (GetUnknownGeneratedInputs w)) as Hout.
  apply calls_of_outputs in Hout.
  destruct (CheckForInvalidGeneratedInputs _ _ _ _) as [ok printed].
  cbn [fst snd] in *. destruct ok; [by destruct Hne; apply Htrue|].
  cbn [negb snd]. rewrite !calls_of_app, Hout. cbn.
  rewrite !elem_of_cons. intros [->|[->|?%elem_of_nil]]; done.
Qed.

(** X4: when the snapshot of the unknown generated inputs is not empty,
    the exit code is 1 and no writer of project files is ever called,
    whatever the command line asks for and whatever the other steps do. *)
Theorem unknown_inputs_stop_the_project_writers
    (RunAndWriteFile : Target → string)
    (OutputFile_of : BuildSettings → SourceFile → OutputFile)
    (GetUserVisibleName : Label → bool → string)
    (w : World) (args : list string) :
  GetUnknownGeneratedInputs w ≠ [] →
  (RunGen RunAndWriteFile OutputFile_of GetUserVisibleName w args).1 = 1%Z ∧
  ∀ c, Called c ∈ (RunGen RunAndWriteFile OutputFile_of GetUserVisibleName
                     w args).2 →
       is_project_writer c = false.
Proof.
  intros Hne. split.
  - destruct (RunGen_code RunAndWriteFile OutputFile_of GetUserVisibleName
      w args) as [[H0|H1] Hiff]; [|done].
    by apply Hiff in H0 as (dir & _ & _ & _ & _ & _ & Hm & _).
  - intros c Hin%elem_of_calls_of. revert Hin.
    destruct args as [|dir [|dir' args]];
      [by intros ?%elem_of_nil| |by intros ?%elem_of_nil].
    rewrite RunGen_one_arg. cbv zeta.
    destruct (DoSetup_result w dir true); cbn [snd];
      [|apply setup_events_calls].
    destruct (Run_result w); cbn [snd].
    + rewrite 3!calls_of_app, !elem_of_app.
      intros [[[H|H]|H]|H].
      * by apply setup_events_calls in H.
      * by apply check_events_calls in H.
      * by apply list_elem_of_singleton in H as ->.
      * by apply write_and_check_unknown in H.
    + rewrite 2!calls_of_app, !elem_of_app.
      intros [[H|H]|H].
      * by apply setup_events_calls in H.
      * by apply check_events_calls in H.
      * by apply list_elem_of_singleton in H as ->.
Qed.

Lemma unknown_inputs_stop_the_project_writers_witness :
  (RunGen Examples.write_rule Examples.output_file_of
     Examples.user_visible_name
     (mkWorld (λ _, true) (λ _, "json") "q" "args" (λ _ _, true) true
        Examples.the_records id Examples.the_builder
        [("//out/Debug/gen/missing.h", Examples.app)]
        (λ _, None) (λ _, 1%Z) 2%Z 3%Z)
     ["out/Debug"]).1 = 1%Z.
Proof.
  apply (unknown_inputs_stop_the_project_writers Examples.write_rule
    Examples.output_file_of Examples.user_visible_name). done.
Defined.

(** ** Quiet runs *)

Lemma run_writer_quiet (w : World) (c : Call) (what : string) :
  Forall (λ ev, is_output ev = false) (run_writer w true c what).2.
Proof.
  unfold run_writer. destruct (call_result w c); by repeat constructor.
Qed.

Lemma optional_writer_quiet (w : World) (switch : string)
    (run : option Err * list Event) :
  Forall (λ ev, is_output ev = false) run.2 →
  Forall (λ ev, is_output ev = false) (optional_writer w switch run).2.
Proof.
  unfold optional_writer. destruct (HasSwitch w switch); [done|constructor].
Qed.

Lemma RunIdeWriter_quiet (w : World) (ide : string) :
  HasSwitch w (kQuiet w) = true →
  Forall (λ ev, is_output ev = false) (RunIdeWriter w ide).2.
Proof.
  intros Hq.
  destruct (RunIdeWriter_shape w ide) as [[e ->]|(c & what & _ & ->)].
  - constructor.
  - rewrite Hq. apply run_writer_quiet.
Qed.

(** X5: a run with [--quiet] that returns 0 writes nothing at all to the
    standard output: its trace holds calls to collaborators only. *)
Theorem quiet_success_prints_nothing
    (RunAndWriteFile : Target → string)
    (OutputFile_of : BuildSettings → SourceFile → OutputFile)
    (GetUserVisibleName : Label → bool → string)
    (w : World) (args : list string) :
  HasSwitch w (kQuiet w) = true →
  (RunGen RunAndWriteFile OutputFile_of GetUserVisibleName w args).1 = 0%Z →
  Forall (λ ev, is_output ev = false)
    (RunGen RunAndWriteFile OutputFile_of GetUserVisibleName w args).2.
Proof.
  intros Hq Hcode.
  pose proof (proj1 (proj2 (RunGen_code RunAndWriteFile OutputFile_of
    GetUserVisibleName w args)) Hcode)
    as (dir & -> & _ & _ & _ & _ & Hm & _).
  revert Hcode. rewrite RunGen_one_arg. cbv zeta.
  destruct (DoSetup_result w dir true); [|done].
  destruct (Run_result w); [|done]. cbn [fst snd].
  intros Hcode. apply Forall_app. split.
  { repeat (apply Forall_app; split).
    - destruct (HasSwitch w (kArgs w)); by repeat constructor.
    - by repeat constructor.
    - destruct (HasSwitch w kSwitchCheck); [destruct (String.eqb _ _)|];
        by repeat constructor.
    - by repeat constructor. }
  revert Hcode. unfold write_and_check.
  destruct (call_result w (NinjaWriter_RunAndWriteFiles _)); [done|].
  destruct (call_result w WriteRuntimeDepsFilesIfNecessary); [done|].
  unfold CheckForInvalidGeneratedInputs. rewrite Hm. cbn [negb].
  pose proof (optional_writer_quiet w kSwitchIde _
    (RunIdeWriter_quiet w (GetSwitchValueASCII w kSwitchIde) Hq)) as H1.
  pose proof (optional_writer_quiet w kSwitchExportCompileCommands
    (RunCompileCommandsWriter w)) as H2.
  pose proof (optional_writer_quiet w kSwitchExportRustProject
    (RunRustProjectWriter w)) as H3.
  unfold RunCompileCommandsWriter in H2. unfold RunRustProjectWriter in H3.
  rewrite Hq in H2, H3.
  specialize (H2 (run_writer_quiet _ _ _)).
  specialize (H3 (run_writer_quiet _ _ _)).
  unfold RunCompileCommandsWriter, RunRustProjectWriter. rewrite Hq.
  destruct (optional_writer w kSwitchIde _) as [[e|] ev1]; [done|].
  destruct (optional_writer w kSwitchExportCompileCommands _)
    as [[e|] ev2]; [done|].
  destruct (optional_writer w kSwitchExportRustProject _)
    as [[e|] ev3]; [done|].
  intros _. cbn [fst snd] in *. unfold report. rewrite Hq. cbn [negb].
  repeat (apply Forall_app; split); try done; by repeat constructor.
Qed.

Lemma quiet_success_prints_nothing_witness :
  Forall (λ ev, is_output ev = false)
    (RunGen Examples.write_rule Examples.output_file_of
       Examples.user_visible_name
       (Examples.command_line [("q", ""); ("ide", "json")]
          Examples.quiet_world)
       ["out/Debug"]).2.
Proof.
  apply (quiet_success_prints_nothing Examples.write_rule
    Examples.output_file_of Examples.user_visible_name).
  - reflexivity.
  - vm_compute. reflexivity.
Defined.

(** X6: the exit code and the whole trace of a run, the rules handed to the
    writer of the root ninja files included, do not depend on the order in
    which the pool runs the tasks, as long as a label names one target. *)
Theorem gen_independent_of_schedule
    (RunAndWriteFile : Target → string)
    (OutputFile_of : BuildSettings → SourceFile → OutputFile)
    (GetUserVisibleName : Label → bool → string)
    (w : World) (s : list Task → list Task) (args : list string) :
  (∀ q, schedule w q ≡ₚ q) → (∀ q, s q ≡ₚ q) →
  (∀ k1 k2, k1 ∈ dispatch (resolved_records w) →
     k2 ∈ dispatch (resolved_records w) →
     label (task_target k1) = label (task_target k2) → k1 = k2) →
  RunGen RunAndWriteFile OutputFile_of GetUserVisibleName
    (with_schedule w s) args =
  RunGen RunAndWriteFile OutputFile_of GetUserVisibleName w args.
Proof. apply RunGen_schedule_independent. Qed.

Lemma gen_independent_of_schedule_witness :
  RunGen Examples.write_rule Examples.output_file_of
    Examples.user_visible_name (with_schedule Examples.quiet_world id)
    ["out/Debug"] =
  RunGen Examples.write_rule Examples.output_file_of
    Examples.user_visible_name Examples.quiet_world ["out/Debug"].
Proof.
  apply (gen_independent_of_schedule Examples.write_rule
    Examples.output_file_of Examples.user_visible_name Examples.quiet_world
    id ["out/Debug"]).
  - intros q. apply reverse_Permutation.
  - done.
  - intros k1 k2 H1 H2.
    change (dispatch (resolved_records Examples.quiet_world))
      with [WriteTask Examples.base; WriteTask Examples.gen;
            WriteTask Examples.app; WriteTask Examples.app_arm] in H1, H2.
    set_unfold.
    destruct H1 as [-> | [-> | [-> | [-> | []]]]];
      destruct H2 as [-> | [-> | [-> | [-> | []]]]];
      simpl; first [done | intros [=]].
Defined.

(** ** The number of targets of the summary *)

Lemma foldl_lengths {K A} (l : list (K * list A)) (n : nat) :
  foldl (λ n cur, n + length cur.2) n l =
    n + sum_list_with (λ cur, length cur.2) l.
Proof.
  revert n. induction l as [|c l IH]; intros n; simpl; [lia|].
  rewrite IH. lia.
Qed.

Lemma targets_collected_sum (r : PerToolchainRules) :
  targets_collected r = sum_list_with (λ cur, length cur.2) (map_to_list r).
Proof. unfold targets_collected. by rewrite foldl_lengths. Qed.

Lemma targets_collected_emplace_back (tc : ToolchainPtr) (p : TargetRulePair)
    (r : PerToolchainRules) :
  targets_collected (rules_emplace_back tc p r) = S (targets_collected r).
Proof.
  unfold rules_emplace_back. rewrite !targets_collected_sum.
  destruct (r !! tc) as [old|] eqn:E; simpl.
  - rewrite <- (insert_delete_eq r).
    rewrite map_to_list_insert by apply lookup_delete_eq.
    rewrite <- (map_to_list_delete r tc old E). simpl.
    rewrite length_app. simpl. lia.
  - rewrite map_to_list_insert by done. simpl. lia.
Qed.

Lemma targets_collected_sort (r : PerToolchainRules) :
  targets_collected (sort_rules r) = targets_collected r.
Proof.
  unfold sort_rules. rewrite !targets_collected_sum, map_to_list_fmap.
  induction (map_to_list r) as [|[tc l] m IH]; [done|].
  rewrite fmap_cons. simpl. rewrite IH. f_equal.
  apply Permutation_length, std_sort_Permutation.
Qed.

Lemma targets_collected_workers (RunAndWriteFile : Target → string)
    (order : list Task) (wi : TargetWriteInfo) :
  targets_collected (rules (run_workers RunAndWriteFile order wi)) =
    targets_collected (rules wi) + length order.
Proof.
  revert wi. induction order as [|k order IH]; intros wi; simpl; [lia|].
  change (run_workers RunAndWriteFile (k :: order) wi)
    with (run_workers RunAndWriteFile order (run_task RunAndWriteFile wi k)).
  rewrite IH. unfold run_task, BackgroundDoWrite. cbn [rules].
  rewrite targets_collected_emplace_back. lia.
Qed.

Lemma targets_collected_records (RunAndWriteFile : Target → string)
    (w : World) :
  (∀ q, schedule w q ≡ₚ q) →
  targets_collected (sort_rules (rules (collected_rules RunAndWriteFile w))) =
    length (omap (λ r, AsTarget (item r)) (resolved_records w)).
Proof.
  intros Hs. rewrite targets_collected_sort. unfold collected_rules.
  rewrite targets_collected_workers, Hs, dispatch_spec, length_fmap.
  unfold targets_collected. cbn [rules]. by rewrite map_to_list_empty.
Qed.

(** X7: a run that returns 0 without [--quiet] ends with [Done. ] in green
    and the line [Made N targets from F files in Tms], where N is the
    number of resolved records whose item is a Target, whatever the
    toolchains of the targets and whatever the order in which the pool ran
    the tasks. *)
Theorem summary_counts_the_target_records
    (RunAndWriteFile : Target → string)
    (OutputFile_of : BuildSettings → SourceFile → OutputFile)
    (GetUserVisibleName : Label → bool → string)
    (w : World) (args : list string) :
  (∀ q, schedule w q ≡ₚ q) →
  HasSwitch w (kQuiet w) = false →
  (RunGen RunAndWriteFile OutputFile_of GetUserVisibleName w args).1 = 0%Z →
  ∃ before,
    (RunGen RunAndWriteFile OutputFile_of GetUserVisibleName w args).2 =
    before ++
    [OutputString "Done. " DECORATION_GREEN;
     OutputString
       ("Made " +:+
        pretty (length (omap (λ r, AsTarget (item r)) (resolved_records w)))
        +:+ " targets from " +:+ pretty (GetInputFileCount w) +:+
        " files in " +:+ pretty (gen_elapsed_ms w) +:+ "ms" +:+ nl)
       DECORATION_NONE].
Proof.
  intros Hs Hquiet Hcode.
  destruct (RunGen_report RunAndWriteFile OutputFile_of GetUserVisibleName
    w args Hcode) as [before ->].
  unfold report. rewrite Hquiet. cbn [negb].
  rewrite (targets_collected_records RunAndWriteFile w Hs).
  eexists. by rewrite List.app_assoc.
Qed.

Lemma summary_counts_the_target_records_witness :
  ∃ before,
    (RunGen Examples.write_rule Examples.output_file_of
       Examples.user_visible_name Examples.quiet_world ["out/Debug"]).2 =
    before ++
    [OutputString "Done. " DECORATION_GREEN;
     OutputString ("Made 4 targets from 5 files in 340ms" +:+ nl)
       DECORATION_NONE].
Proof.
  apply (summary_counts_the_target_records Examples.write_rule
    Examples.output_file_of Examples.user_visible_name Examples.quiet_world
    ["out/Debug"]).
  - intros q. apply reverse_Permutation.
  - reflexivity.
  - vm_compute. reflexivity.
Defined.

(** ** The aggregator before the sort *)

(** X8: the workers only ever append: after any sequence of tasks, the
    rules of a toolchain are the rules it held before, in their order,
    followed by one rule for each task of that toolchain, in the order in
    which the tasks reached the lock; a toolchain has an entry exactly when
    it had one before or a task was run for it, and an aggregator that starts
    empty never holds an empty vector. *)
Theorem workers_append_in_arrival_order
    (RunAndWriteFile : Target → string) (order : list Task)
    (wi : TargetWriteInfo) (tc : ToolchainPtr) :
  default [] (rules (run_workers RunAndWriteFile order wi) !! tc) =
    default [] (rules wi !! tc) ++ entries_of RunAndWriteFile tc order ∧
  (rules (run_workers RunAndWriteFile order wi) !! tc = None ↔
   rules wi !! tc = None ∧
   ∀ k, k ∈ order → toolchain (task_target k) ≠ tc) ∧
  (∀ l, rules (run_workers RunAndWriteFile order {| rules := ∅ |}) !! tc
          = Some l → l ≠ []).
Proof.
  assert (entries_of RunAndWriteFile tc order = [] ↔
          ∀ k, k ∈ order → toolchain (task_target k) ≠ tc) as Hnone.
  { unfold entries_of. split.
    - intros Hf%fmap_nil_inv k Hk Htc.
      assert (k ∈ filter (λ k, toolchain (task_target k) = tc) order) as Hin
        by by apply list_elem_of_filter.
      rewrite Hf in Hin. by apply elem_of_nil in Hin.
    - intros Hall. rewrite filter_none; [done|].
      apply Forall_forall. intros k Hk. by apply Hall. }
  split; [|split].
  - rewrite run_workers_lookup.
    destruct (entries_of RunAndWriteFile tc order); [|done].
    by rewrite app_nil_r.
  - rewrite run_workers_lookup, <- Hnone.
    destruct (entries_of RunAndWriteFile tc order); [by split; [|intros []]|].
    split; [done|]. by intros [_ ?].
  - intros l. rewrite collected_lookup.
    destruct (entries_of RunAndWriteFile tc order); [done|].
    by intros [= <-].
Qed.

(** X9: the callback keeps the order of the records: the targets of the
    submitted tasks are the targets of the reported records, one for each
    Target record and in the order of the reports, and the tasks of two
    batches of reports are those of the first batch followed by those of
    the second. *)
Theorem dispatch_keeps_the_order_of_the_records
    (records1 records2 : list BuilderRecord) :
  task_target <$> dispatch records1 =
    omap (λ r, AsTarget (item r)) records1 ∧
  dispatch (records1 ++ records2) = dispatch records1 ++ dispatch records2.
Proof.
  split.
  - rewrite dispatch_spec, <- list_fmap_compose.
    apply list_eq. intros i. rewrite list_lookup_fmap.
    by destruct (omap _ records1 !! i).
  - by rewrite !dispatch_spec, omap_app, fmap_app.
Qed.

(** ** One group for each entry *)

Lemma range_prefix_keys (k : SourceFile) (rest : multimap) :
  pair k <$> (range_prefix rest k).*2 = range_prefix rest k ↔
  Forall (has_key k) (range_prefix rest k).
Proof.
  induction (range_prefix rest k) as [|[k' v] l IH]; simpl.
  - split; [constructor|done].
  - rewrite Forall_cons. unfold has_key at 1. simpl. split.
    + intros [= -> H]. split; [done|]. by apply IH.
    + intros [-> H]. f_equal. by apply IH.
Qed.

Lemma mm_groups_flatten (n : nat) (m : multimap) :
  (length m ≤ n)%nat → StronglySorted entry_le m →
  mm_groups m ≫= (λ g, pair g.1 <$> g.2) = m.
Proof.
  revert m. induction n as [|n IH]; intros m Hlen Hord.
  { destruct m; simpl in *; [done|lia]. }
  destruct m as [|[k v] rest]; [done|].
  rewrite mm_groups_cons. cbn [fst snd].
  apply StronglySorted_inv in Hord as [Hord Hk].
  destruct (range_of_ordered k rest) as (Hrange & Hub & _); [|done|].
  { eapply Forall_impl; [exact Hk|]. by intros e He. }
  rewrite bind_cons, IH.
  - cbn [fst snd]. rewrite fmap_cons. simpl. f_equal.
    rewrite (proj2 (range_prefix_keys k rest)).
    + apply range_prefix_upper_bound.
    + rewrite Hrange. apply Forall_forall.
      by intros e [? _]%list_elem_of_filter.
  - pose proof (upper_bound_length rest k). simpl in Hlen. lia.
  - rewrite Hub. by apply StronglySorted_filter.
Qed.

(** X10: no entry of the snapshot is lost or reported twice: the groups
    handed to [PrintInvalidGeneratedInput], each spread out again into the
    pairs of its file with its targets, give back the snapshot, entry by
    entry and in its order. *)
Theorem every_unknown_input_is_reported_once (m : multimap) :
  mm_ordered m →
  processed_groups m ≫= (λ g, pair g.1 <$> g.2) = m.
Proof.
  intros Hord. rewrite processed_groups_spec by done.
  apply (mm_groups_flatten (length m)); [done|].
  by apply mm_ordered_strongly.
Qed.

Lemma every_unknown_input_is_reported_once_witness :
  processed_groups (mm_of_insertions b_then_a)
    ≫= (λ g, pair g.1 <$> g.2) = mm_of_insertions b_then_a.
Proof.
  apply (every_unknown_input_is_reported_once (mm_of_insertions b_then_a)).
  apply mm_of_insertions_ordered.
Defined.

(** ** The jumbo counters *)

(** Ascending addresses, the order of [std::set<const Target*>]. *)
Definition addr_lt : relation Target :=
  λ a b, (target_addr a < target_addr b)%positive.

Lemma set_insert_Sorted (x : Target) (s : list Target) :
  Sorted addr_lt s → Sorted addr_lt (set_insert x s).
Proof.
  induction 1 as [|u s Hs IH Hu]; simpl.
  - repeat constructor.
  - destruct (target_addr x <? target_addr u)%positive eqn:E1.
    { constructor; [by constructor|]. constructor. by apply Pos.ltb_lt. }
    destruct (target_addr u <? target_addr x)%positive eqn:E2;
      [|by constructor].
    constructor; [done|]. apply Pos.ltb_lt in E2.
    destruct Hu as [|z s Hz]; simpl; [by constructor|].
    destruct (target_addr x <? target_addr z)%positive; [by constructor|].
    destruct (target_addr z <? target_addr x)%positive; by constructor.
Qed.

Lemma set_insert_length (x : Target) (s : list Target) :
  (length (set_insert x s) ≤ S (length s))%nat.
Proof.
  induction s as [|u s IH]; simpl; [lia|].
  destruct (target_addr x <? target_addr u)%positive; simpl; [lia|].
  destruct (target_addr u <? target_addr x)%positive; simpl; lia.
Qed.

Lemma addr_lt_NoDup (s : list Target) :
  Sorted addr_lt s → NoDup (target_addr <$> s).
Proof.
  intros Hs. apply Sorted_StronglySorted in Hs.
  2: { intros a b c. unfold addr_lt. lia. }
  induction Hs as [|t s _ IH Ht]; [constructor|].
  rewrite fmap_cons. constructor; [|done].
  intros (u & Hu & Hin)%list_elem_of_fmap.
  rewrite Forall_forall in Ht. specialize (Ht u Hin).
  unfold addr_lt in Ht. lia.
Qed.

Lemma jumbo_fold_bucket (entries : list TargetRulePair) (st : JumboStats) :
  Sorted addr_lt (jumbo_not_configured_targets st) →
  Sorted addr_lt
    (jumbo_not_configured_targets (foldl jumbo_visit st entries)) ∧
  (Z.of_nat (length (jumbo_not_configured_targets
                       (foldl jumbo_visit st entries))) ≤
   Z.of_nat (length (jumbo_not_configured_targets st))
   + count_targets jumbo_not_configured_target entries)%Z.
Proof.
  revert st. induction entries as [|p entries IH]; intros st Hs.
  { simpl. split; [done|]. unfold count_targets. simpl. lia. }
  cbn [foldl]. destruct (jumbo_visit_spec st p) as (_ & _ & Vs).
  destruct (IH (jumbo_visit st p)) as [IHs IHl].
  { rewrite Vs. destruct (jumbo_not_configured_target p.1); [|done].
    by apply set_insert_Sorted. }
  split; [done|]. rewrite count_targets_cons.
  etrans; [exact IHl|]. rewrite Vs.
  destruct (jumbo_not_configured_target p.1); [|lia].
  pose proof (set_insert_length p.1 (jumbo_not_configured_targets st)). lia.
Qed.

Lemma configured_counts (entries : list TargetRulePair) :
  (count_targets jumbo_allowed_target entries
   + count_targets jumbo_disallowed_target entries)%Z =
  count_targets is_jumbo_configured entries.
Proof.
  induction entries as [|p entries IH].
  { reflexivity. }
  rewrite !count_targets_cons, <- IH.
  unfold jumbo_allowed_target, jumbo_disallowed_target.
  destruct (is_jumbo_configured p.1), (is_jumbo_allowed p.1); simpl; lia.
Qed.

(** X11: the jumbo counters split the rules: every rule whose target has a
    jumbo configuration is counted exactly once, as allowed or as
    disallowed; the not-configured bucket holds no address twice and no
    more entries than there are rules of binary targets without a jumbo
    configuration; and without [--jumbo-stats] nothing is counted. *)
Theorem jumbo_counters_split_the_rules (r : PerToolchainRules) :
  (jumbo_allowed_count (jumbo_collect true r)
   + jumbo_disallowed_count (jumbo_collect true r))%Z =
    count_targets is_jumbo_configured (all_rules r) ∧
  NoDup (target_addr <$> jumbo_not_configured_targets (jumbo_collect true r)) ∧
  (Z.of_nat (length (jumbo_not_configured_targets (jumbo_collect true r))) ≤
   count_targets jumbo_not_configured_target (all_rules r))%Z ∧
  jumbo_collect false r = jumbo_init.
Proof.
  destruct (jumbo_fold (all_rules r) jumbo_init) as (Ha & Hd & _).
  destruct (jumbo_fold_bucket (all_rules r) jumbo_init) as [Hs Hl];
    [constructor|].
  unfold jumbo_collect. rewrite foldl_nested. fold (all_rules r).
  rewrite Ha, Hd. simpl in *.
  split; [by rewrite <- configured_counts|].
  split; [by apply addr_lt_NoDup|]. split; [lia|done].
Qed.

(** ** Which writers run *)

Lemma RunIdeWriter_writer_for (w : World) (ide : string) (c : Call) :
  Called c ∈ (RunIdeWriter w ide).2 → writer_for ide c.
Proof.
  unfold RunIdeWriter.
  destruct (String.eqb ide kSwitchIdeValueEclipse) eqn:Ee.
  { apply String.eqb_eq in Ee. by intros ->%run_writer_call. }
  destruct (String.eqb ide kSwitchIdeValueVs) eqn:Ev; cbn [orb].
  { apply String.eqb_eq in Ev. subst. intros ->%run_writer_call.
    simpl. by left. }
  destruct (String.eqb ide kSwitchIdeValueVs2013) eqn:E13; cbn [orb].
  { apply String.eqb_eq in E13. subst. intros ->%run_writer_call.
    simpl. right. by left. }
  destruct (String.eqb ide kSwitchIdeValueVs2015) eqn:E15; cbn [orb].
  { apply String.eqb_eq in E15. subst. intros ->%run_writer_call.
    simpl. do 2 right. by left. }
  destruct (String.eqb ide kSwitchIdeValueVs2017) eqn:E17; cbn [orb].
  { apply String.eqb_eq in E17. subst. intros ->%run_writer_call.
    simpl. do 3 right. by left. }
  destruct (String.eqb ide kSwitchIdeValueVs2019) eqn:E19.
  { apply String.eqb_eq in E19. subst. intros ->%run_writer_call.
    simpl. do 4 right. by left. }
  destruct (String.eqb ide kSwitchIdeValueXcode) eqn:Ex.
  { apply String.eqb_eq in Ex.
    destruct (negb _); [|by intros ->%run_writer_call].
    destruct (String.eqb _ kSwitchXcodeBuildsystemValueNew);
      [by intros ->%run_writer_call|].
    destruct (String.eqb _ kSwitchXcodeBuildsystemValueLegacy);
      [by intros ->%run_writer_call|].
    by intros ?%elem_of_nil. }
  destruct (String.eqb ide kSwitchIdeValueQtCreator) eqn:Eq.
  { apply String.eqb_eq in Eq. by intros ->%run_writer_call. }
  destruct (String.eqb ide kSwitchIdeValueJson) eqn:Ej.
  { apply String.eqb_eq in Ej. by intros ->%run_writer_call. }
  by intros ?%elem_of_nil.
Qed.

(** The switch that asks for a writer of project files. *)
Definition asked_for (w : World) (c : Call) : Prop :=
  match c with
  | RustProjectWriter_RunAndWriteFiles file_name _ =>
      HasSwitch w kSwitchExportRustProject = true ∧
      file_name = "rust-project.json"
  | CompileCommandsWriter_RunAndWriteFiles file_name target_filters _ =>
      HasSwitch w kSwitchExportCompileCommands = true ∧
      file_name = "compile_commands.json" ∧
      target_filters = GetSwitchValueASCII w kSwitchExportCompileCommands
  | EclipseWriter_RunAndWriteFile
  | VisualStudioWriter_RunAndWriteFiles _ _ _ _ _ _
  | XcodeWriter_RunAndWriteFiles _
  | QtCreatorWriter_RunAndWriteFile _
  | JSONProjectWriter_RunAndWriteFiles _ _ _ _ _ =>
      HasSwitch w kSwitchIde = true ∧
      writer_for (GetSwitchValueASCII w kSwitchIde) c
  | _ => True
  end.

Lemma optional_writer_calls (w : World) (switch : string)
    (run : option Err * list Event) (c : Call) :
  c ∈ calls_of (optional_writer w switch run).2 →
  HasSwitch w switch = true ∧ Called c ∈ run.2.
Proof.
  unfold optional_writer. destruct (HasSwitch w switch).
  - intros ?%elem_of_calls_of. done.
  - by intros ?%elem_of_nil.
Qed.

(** X12: a writer of project files runs only when the command line asks
    for it: the Rust-project writer only with [--export-rust-project], the
    compile-commands writer only with [--export-compile-commands], whose
    value it gets as the target filters, and an IDE writer only with
    [--ide], and then the one writer that the value of [--ide] names. *)
Theorem writers_run_only_when_asked
    (RunAndWriteFile : Target → string)
    (OutputFile_of : BuildSettings → SourceFile → OutputFile)
    (GetUserVisibleName : Label → bool → string)
    (w : World) (args : list string) (c : Call) :
  Called c ∈ (RunGen RunAndWriteFile OutputFile_of GetUserVisibleName
                w args).2 →
  asked_for w c.
Proof.
  intros Hin%elem_of_calls_of. revert Hin.
  destruct args as [|dir [|dir' args]];
    [by intros ?%elem_of_nil| |by intros ?%elem_of_nil].
  destruct (calls_are_an_initial_part RunAndWriteFile OutputFile_of
    GetUserVisibleName w dir) as (rest & Hall & _).
  intros Hin.
  assert (c ∈ all_calls RunAndWriteFile w dir) as Hc.
  { rewrite Hall. apply elem_of_app. by left. }
  clear Hin Hall. unfold all_calls in Hc.
  rewrite !elem_of_app in Hc.
  destruct Hc as [H|[H|[H|[H|[H|H]]]]].
  - unfold setup_calls in H. destruct (HasSwitch w (kArgs w)); cbn in H;
      rewrite ?elem_of_cons in H; decompose [or] H; subst; try done;
      match goal with H' : _ ∈ [] |- _ => by apply elem_of_nil in H' end.
  - unfold check_calls in H.
    destruct (HasSwitch w kSwitchCheck); [destruct (String.eqb _ _)|];
      rewrite ?elem_of_cons in H; decompose [or] H; subst; try done;
      try match goal with H' : _ ∈ [] |- _ => by apply elem_of_nil in H' end.
  - rewrite !elem_of_cons in H. decompose [or] H; subst; try done.
    match goal with H' : _ ∈ [] |- _ => by apply elem_of_nil in H' end.
  - apply optional_writer_calls in H as [Hs H].
    pose proof (RunIdeWriter_writer_for _ _ _ H) as Hw.
    destruct c; try done.
  - apply optional_writer_calls in H as [Hs H].
    by apply run_writer_call in H as ->.
  - apply optional_writer_calls in H as [Hs H].
    by apply run_writer_call in H as ->.
Qed.

(** ** A failure is not silent *)

Lemma last_of_failure (out ev : list Event) (e : Err) :
  last (out ++ ev ++ [PrintToStdout e]) = Some (PrintToStdout e).
Proof. by rewrite List.app_assoc, last_snoc. Qed.

(** X13: once the set-up and the load have succeeded and no generated
    input is unknown, a run that returns 1 ends by printing an error, and
    this error is the one left by the first step that fails, in the order
    of the steps: the writer of the root ninja files, then the runtime
    deps, then, each only when its switch is given, the IDE writer, the
    compile-commands writer and the Rust-project writer. A writer whose
    switch is absent, and a step after the one that failed, has no part in
    it. *)
Theorem failure_after_the_load_prints_its_error
    (RunAndWriteFile : Target → string)
    (OutputFile_of : BuildSettings → SourceFile → OutputFile)
    (GetUserVisibleName : Label → bool → string)
    (w : World) (dir : string) :
  DoSetup_result w dir true = true →
  Run_result w = true →
  GetUnknownGeneratedInputs w = [] →
  (RunGen RunAndWriteFile OutputFile_of GetUserVisibleName w [dir]).1 = 1%Z →
  ∃ e,
    last (RunGen RunAndWriteFile OutputFile_of GetUserVisibleName w [dir]).2
      = Some (PrintToStdout e) ∧
    Some e =
      match call_result w
              (NinjaWriter_RunAndWriteFiles
                 (sort_rules (rules (collected_rules RunAndWriteFile w))))
      with
      | Some ninja_error => Some ninja_error
      | None =>
      match call_result w WriteRuntimeDepsFilesIfNecessary with
      | Some deps_error => Some deps_error
      | None =>
      match (if HasSwitch w kSwitchIde
             then (RunIdeWriter w (GetSwitchValueASCII w kSwitchIde)).1
             else None) with
      | Some ide_error => Some ide_error
      | None =>
      match (if HasSwitch w kSwitchExportCompileCommands
             then (RunCompileCommandsWriter w).1 else None) with
      | Some compile_commands_error => Some compile_commands_error
      | None =>
          if HasSwitch w kSwitchExportRustProject
          then (RunRustProjectWriter w).1 else None
      end end end end.
Proof.
  intros Hsetup Hrun Hm. rewrite RunGen_one_arg. cbv zeta.
  rewrite Hsetup, Hrun. cbn [fst snd]. unfold write_and_check.
  destruct (call_result w (NinjaWriter_RunAndWriteFiles _)) as [e|] eqn:En.
  { intros _. exists e. split; [|done].
    exact (last_of_failure _ [Called _] e). }
  destruct (call_result w WriteRuntimeDepsFilesIfNecessary) as [e|] eqn:Ew.
  { intros _. exists e. split; [|done].
    exact (last_of_failure _ [Called _; Called _] e). }
  unfold CheckForInvalidGeneratedInputs. rewrite Hm. cbn [negb].
  assert (∀ switch run,
            (optional_writer w switch run).1 =
            if HasSwitch w switch then run.1 else None) as Hopt.
  { intros switch run. unfold optional_writer.
    by destruct (HasSwitch w switch). }
  rewrite <- !Hopt.
  destruct (optional_writer w kSwitchIde _) as [[e|] ev1] eqn:E1.
  { intros _. exists e. split; [|done].
    cbn [snd]. rewrite !List.app_assoc. apply last_snoc. }
  destruct (optional_writer w kSwitchExportCompileCommands _)
    as [[e|] ev2] eqn:E2.
  { intros _. exists e. split; [|done].
    cbn [snd]. rewrite !List.app_assoc. apply last_snoc. }
  destruct (optional_writer w kSwitchExportRustProject _)
    as [[e|] ev3] eqn:E3; [|done].
  intros _. exists e. split; [|done].
  cbn [snd]. rewrite !List.app_assoc. apply last_snoc.
Qed.

Lemma failure_after_the_load_prints_its_error_witness :
  last (RunGen Examples.write_rule Examples.output_file_of
          Examples.user_visible_name xcode_with_ninja ["out/Debug"]).2
    = Some (PrintToStdout
              {| err_message := "Unknown build system: ninja";
                 err_help := "" |}).
Proof.
  destruct (failure_after_the_load_prints_its_error Examples.write_rule
    Examples.output_file_of Examples.user_visible_name xcode_with_ninja
    "out/Debug" eq_refl eq_refl eq_refl eq_refl) as (e & He & Hfirst).
  rewrite He. f_equal. f_equal. symmetry in Hfirst.
  vm_compute in Hfirst. by injection Hfirst as <-.
Defined.

(** ** What the writer of the root ninja files receives *)

(** X14: whenever the writer of the root ninja files is called, the rules
    it receives are the collected ones after the sort: no toolchain comes
    with an empty sequence, the rules of every toolchain are in ascending
    order of the labels of their targets, and each of them is the rule that
    the per-target writer made for its target, filed under the toolchain of
    that target. *)
Theorem ninja_writer_receives_sorted_rules
    (RunAndWriteFile : Target → string)
    (OutputFile_of : BuildSettings → SourceFile → OutputFile)
    (GetUserVisibleName : Label → bool → string)
    (w : World) (args : list string) (r : PerToolchainRules) :
  Called (NinjaWriter_RunAndWriteFiles r)
    ∈ (RunGen RunAndWriteFile OutputFile_of GetUserVisibleName w args).2 →
  r = sort_rules (rules (collected_rules RunAndWriteFile w)) ∧
  ∀ tc l,
    r !! tc = Some l →
    l ≠ [] ∧
    StronglySorted (λ a b, Label_lt (label b.1) (label a.1) = false) l ∧
    Forall (λ p, toolchain p.1 = tc ∧ p.2 = RunAndWriteFile p.1) l.
Proof.
  intros Hin%elem_of_calls_of.
  assert (r = sort_rules (rules (collected_rules RunAndWriteFile w))) as ->.
  { revert Hin.
    destruct args as [|dir [|dir' args]];
      [by intros ?%elem_of_nil| |by intros ?%elem_of_nil].
    destruct (calls_are_an_initial_part RunAndWriteFile OutputFile_of
      GetUserVisibleName w dir) as (rest & Hall & _).
    intros Hin.
    assert (NinjaWriter_RunAndWriteFiles r ∈ all_calls RunAndWriteFile w dir)
      as Hc.
    { rewrite Hall. apply elem_of_app. by left. }
    clear Hin Hall. unfold all_calls in Hc. rewrite !elem_of_app in Hc.
    destruct Hc as [H|[H|[H|[H|[H|H]]]]].
    - unfold setup_calls in H. destruct (HasSwitch w (kArgs w)); cbn in H;
        rewrite ?elem_of_cons in H; decompose [or] H; try done;
        match goal with H' : _ ∈ [] |- _ => by apply elem_of_nil in H' end.
    - unfold check_calls in H.
      destruct (HasSwitch w kSwitchCheck); [destruct (String.eqb _ _)|];
        rewrite ?elem_of_cons in H; decompose [or] H; try done;
        try match goal with
            | H' : _ ∈ [] |- _ => by apply elem_of_nil in H'
            end.
    - rewrite !elem_of_cons in H. decompose [or] H; try done.
      + by simplify_eq.
      + match goal with H' : _ ∈ [] |- _ => by apply elem_of_nil in H' end.
    - apply optional_writer_calls in H as [_ H].
      by apply RunIdeWriter_writer_for in H.
    - apply optional_writer_calls in H as [_ H].
      by apply run_writer_call in H.
    - apply optional_writer_calls in H as [_ H].
      by apply run_writer_call in H. }
  split; [done|]. intros tc l. unfold sort_rules, collected_rules.
  rewrite lookup_fmap, collected_lookup.
  destruct (entries_of _ _ _) as [|p es] eqn:E; [done|].
  change (Some (std_sort rule_less (p :: es)) = Some l → l ≠ [] ∧
    StronglySorted (λ a b, Label_lt (label b.1) (label a.1) = false) l ∧
    Forall (λ p, toolchain p.1 = tc ∧ p.2 = RunAndWriteFile p.1) l).
  intros Heq.
  assert (l = std_sort rule_less (p :: es)) as -> by congruence.
  clear Heq. split; [|split].
  - intros Hnil.
    pose proof (std_sort_Permutation rule_less (p :: es)) as Hp.
    rewrite Hnil in Hp. by apply Permutation_nil_l in Hp.
  - apply (Sorted_StronglySorted rule_le), std_sort_Sorted, rule_less_asym.
  - apply Forall_forall. intros q Hq.
    rewrite std_sort_Permutation, <- E in Hq.
    apply elem_of_entries_of in Hq. tauto.
Qed.

Lemma ninja_writer_receives_sorted_rules_witness :
  example_rules =
    sort_rules (rules (collected_rules Examples.write_rule
                         Examples.quiet_world)).
Proof.
  apply (ninja_writer_receives_sorted_rules Examples.write_rule
    Examples.output_file_of Examples.user_visible_name Examples.quiet_world
    ["out/Debug"] example_rules).
  vm_compute. do 3 right. left.
Defined.

Lemma writers_run_only_when_asked_witness :
  asked_for
    (Examples.command_line [("q", ""); ("ide", "json")] Examples.quiet_world)
    (JSONProjectWriter_RunAndWriteFiles "project.json" "" "" "" true).
Proof.
  apply (writers_run_only_when_asked Examples.write_rule
    Examples.output_file_of Examples.user_visible_name
    (Examples.command_line [("q", ""); ("ide", "json")] Examples.quiet_world)
    ["out/Debug"]).
  vm_compute. do 5 right. left.
Defined.
